(** * update_textures.py: the texture matcher and the catalog updater

    A shallow embedding of [src/public/update_textures.py].

    - Python [str] values are [string]s; the case mapping and the white
      space are the ASCII ones (bytes outside [A-Z] are left alone by
      [str_lower]).
    - The matcher takes the candidate set as the list of its elements in
      the order in which the run iterates it; [x in s] is list membership.
      The updater builds the set as a [gset] and obtains that list from a
      function [set_order], about which nothing is assumed unless stated.
    - A parsed JSON document is a value of [json]; a Python [dict] is the
      association list of its items in insertion order.
    - The two files and the console are explicit: a computation takes the
      files and returns the files, the lines it printed and either the
      exception it raised or its result.  A file is modelled by its
      content: a parsed document, or a text that does not parse.
    - Writing [blocks.json] truncates it and then dumps the document; the
      dump raises at a string that the encoding of the file does not
      accept (a lone surrogate, which [json.load] yields from an escape),
      and the file is then left cut off.  Which characters are accepted is
      a function [encodes], about which nothing is assumed. *)

From Stdlib Require Import Ascii String QArith.
From stdpp Require Import gmap strings list.

Local Open Scope string_scope.
Local Open Scope list_scope.
Local Open Scope nat_scope.

(** ** Python string operations *)

Module PyStr.

(** [c.lower()] on one ASCII character. *)
Definition lower_ascii (c : ascii) : ascii :=
  let n := nat_of_ascii c in
  if (65 <=? n) && (n <=? 90) then ascii_of_nat (n + 32) else c.

(** [s.lower()] *)
Fixpoint str_lower (s : string) : string :=
  match s with
  | EmptyString => EmptyString
  | String c s' => String (lower_ascii c) (str_lower s')
  end.

(** [sub in s] *)
Fixpoint str_contains (sub s : string) : bool :=
  match s with
  | EmptyString => String.prefix sub EmptyString
  | String _ s' => String.prefix sub s || str_contains sub s'
  end.

(** [s.replace(old, new)] for a non-empty [old] (every call site passes a
    non-empty literal): occurrences are found left to right and do not
    overlap.  [skip] counts the characters of a matched occurrence that
    are still to be dropped. *)
Fixpoint str_replace_from (skip : nat) (old new s : string) : string :=
  match s with
  | EmptyString => EmptyString
  | String c s' =>
      match skip with
      | S k => str_replace_from k old new s'
      | O =>
          if String.prefix old s
          then new +:+ str_replace_from (String.length old - 1) old new s'
          else String c (str_replace_from 0 old new s')
      end
  end.

Definition str_replace (old new s : string) : string :=
  str_replace_from 0 old new s.

(** [s.split(sep)] for a one-character separator; never the empty list. *)
Fixpoint str_split (sep : ascii) (s : string) : list string :=
  match s with
  | EmptyString => [EmptyString]
  | String c s' =>
      if Ascii.eqb c sep then EmptyString :: str_split sep s'
      else match str_split sep s' with
           | [] => [String c EmptyString]
           | p :: ps => String c p :: ps
           end
  end.

(** [sep.join(parts)] *)
Fixpoint str_join (sep : string) (parts : list string) : string :=
  match parts with
  | [] => EmptyString
  | [p] => p
  | p :: ps => p +:+ sep +:+ str_join sep ps
  end.

(** [s.endswith(suffix)] *)
Definition str_endswith (suffix s : string) : bool :=
  let n := String.length s in
  let k := String.length suffix in
  (k <=? n) && String.eqb (String.substring (n - k) k s) suffix.

(** ASCII characters for which [str.isspace] holds. *)
Definition is_space (c : ascii) : bool :=
  let n := nat_of_ascii c in
  ((9 <=? n) && (n <=? 13)) || ((28 <=? n) && (n <=? 32)).

Fixpoint str_lstrip (s : string) : string :=
  match s with
  | EmptyString => EmptyString
  | String c s' => if is_space c then str_lstrip s' else s
  end.

Fixpoint str_rstrip (s : string) : string :=
  match s with
  | EmptyString => EmptyString
  | String c s' =>
      match str_rstrip s' with
      | EmptyString => if is_space c then EmptyString else String c EmptyString
      | r => String c r
      end
  end.

(** [s.strip()] *)
Definition str_strip (s : string) : string := str_rstrip (str_lstrip s).

(** [min(l, key=len)] on a non-empty list [best :: l]: the first element
    of least length. *)
Fixpoint min_by_len (best : string) (l : list string) : string :=
  match l with
  | [] => best
  | x :: l' =>
      if String.length x <? String.length best
      then min_by_len x l' else min_by_len best l'
  end.

End PyStr.
Import PyStr.

(** ** The matcher *)

Definition missing_texture : string := "missing_texture.png".

(** [x in available_textures] *)
Definition mem (x : string) (available_textures : list string) : bool :=
  bool_decide (x ∈ available_textures).

(** [for variation in forms: if variation in available_textures: return variation] *)
Definition first_present (forms available_textures : list string) : option string :=
  List.find (fun variation => mem variation available_textures) forms.

Definition normalize_name (name : string) : string :=
  str_replace " " "" (str_replace "-" "" (str_replace "_" "" (str_lower name))).

(** The list [variations] for an already lower-cased block name. *)
Definition variations (block_name : string) : list string :=
  [ "stone_" +:+ block_name +:+ ".png";
    "planks_" +:+ block_name +:+ ".png";
    "log_" +:+ block_name +:+ ".png";
    "leaves_" +:+ block_name +:+ ".png";
    "wool_colored_" +:+ block_name +:+ ".png";
    "glass_" +:+ block_name +:+ ".png";
    "concrete_" +:+ block_name +:+ ".png";
    "hardened_clay_stained_" +:+ block_name +:+ ".png";
    "glazed_terracotta_" +:+ block_name +:+ ".png" ].

Definition polished_base_name (block_name : string) : string :=
  str_replace "polished_" "" block_name.

Definition smooth_variations (base_name : string) : list string :=
  [ "stone_" +:+ base_name +:+ "_smooth.png";
    base_name +:+ "_smooth.png";
    "polished_" +:+ base_name +:+ ".png" ].

(** The "polished" tier: [None] when the tier is skipped or misses. *)
Definition polished_tier (block_name : string) (available_textures : list string)
  : option string :=
  if str_contains "polished" block_name
  then first_present (smooth_variations (polished_base_name block_name))
                     available_textures
  else None.

Definition test_variations (part_combo : string) : list string :=
  [ part_combo +:+ ".png";
    "stone_" +:+ part_combo +:+ ".png";
    "planks_" +:+ part_combo +:+ ".png" ].

(** The values of [part_combo] in the order the two nested loops produce
    them: [i] over [range(len(name_parts))], [j] over
    [range(i + 1, len(name_parts) + 1)], [name_parts[i:j]] joined. *)
Definition part_combos (name_parts : list string) : list string :=
  i ← seq 0 (length name_parts);
  j ← seq (i + 1) (length name_parts - i);
  [str_join "_" (take (j - i) (drop i name_parts))].

(** The sub-phrase tier: every test of the nested loops, in order, with the
    early return. *)
Definition combo_tier (block_name : string) (available_textures : list string)
  : option string :=
  let name_parts := str_split "_" block_name in
  if 1 <? length name_parts
  then first_present (part_combos name_parts ≫= test_variations) available_textures
  else None.

(** [block_parts] of the fuzzy tier. *)
Definition block_parts (block_name normalized_block : string) : list string :=
  if str_contains "_" block_name
  then str_split "_" normalized_block
  else [normalized_block].

(** The body of the loop over textures: is [texture] appended to
    [best_matches]? *)
Definition fuzzy_qualifies (block_name normalized_block texture : string) : bool :=
  let texture_base := str_replace ".png" "" texture in
  let normalized_texture := normalize_name texture_base in
  existsb (fun part => (2 <? String.length part) && str_contains part normalized_texture)
          (block_parts block_name normalized_block).

Definition best_matches (block_name : string) (available_textures : list string)
  : list string :=
  List.filter (fuzzy_qualifies block_name (normalize_name block_name)) available_textures.

Definition fuzzy_tier (block_name : string) (available_textures : list string)
  : option string :=
  match best_matches block_name available_textures with
  | [] => None
  | m :: ms => Some (min_by_len m ms)
  end.

(** [find_matching_texture(block_name, available_textures)]; the argument
    [available_textures] lists the set in iteration order. *)
Definition find_matching_texture (block_name : string) (available_textures : list string)
  : string :=
  let block_name := str_lower block_name in
  let exact_match := block_name +:+ ".png" in
  if mem exact_match available_textures then exact_match else
  match first_present (variations block_name) available_textures with
  | Some variation => variation
  | None =>
  match polished_tier block_name available_textures with
  | Some variation => variation
  | None =>
  match combo_tier block_name available_textures with
  | Some variation => variation
  | None =>
  match fuzzy_tier block_name available_textures with
  | Some texture => texture
  | None => missing_texture
  end end end end.

(** ** The fuzzy tier as the specification words it

    The specification splits the original block name on [_] and normalizes
    each part; a name without underscore is one part, its normalized form.
    These two definitions follow those words and are compared with
    [block_parts] and [fuzzy_qualifies] below. *)

Definition spec_block_parts (block_name : string) : list string :=
  if str_contains "_" block_name
  then normalize_name <$> str_split "_" block_name
  else [normalize_name block_name].

Definition spec_fuzzy_qualifies (block_name texture : string) : bool :=
  let normalized_texture := normalize_name (str_replace ".png" "" texture) in
  existsb (fun part => (2 <? String.length part) && str_contains part normalized_texture)
          (spec_block_parts block_name).

(** ** The "polished" base name as the specification words it

    The specification strips the token [polished] from the block name.
    Read on the [_]-separated parts of the name, that removes every part
    equal to [polished]; read on characters, it removes every occurrence
    of the substring. *)

Definition spec_strip_token (block_name : string) : string :=
  str_join "_"
    (List.filter (fun part => negb (String.eqb part "polished"))
                 (str_split "_" block_name)).

Definition spec_strip_substring (block_name : string) : string :=
  str_replace "polished" "" block_name.

(** ** JSON values and Python dictionaries *)

(** What [json.load] returns: [None], [bool], a number, [str], [list] or
    [dict]; a [dict] keeps its items in insertion order. *)
#[warnings="-register-all"]
Inductive json : Type :=
| JNull
| JBool (b : bool)
| JNum (n : Z)
| JStr (s : string)
| JArr (items : list json)
| JObj (fields : list (string * json)).

(** [d.get(key)] *)
Fixpoint dict_get (key : string) (d : list (string * json)) : option json :=
  match d with
  | [] => None
  | (k, v) :: d' => if String.eqb k key then Some v else dict_get key d'
  end.

(** [d[key] = value]: an existing key keeps its position, a new key goes
    last. *)
Fixpoint dict_set (key : string) (value : json) (d : list (string * json))
  : list (string * json) :=
  match d with
  | [] => [(key, value)]
  | (k, v) :: d' =>
      if String.eqb k key then (k, value) :: d'
      else (k, v) :: dict_set key value d'
  end.

(** Every character of [s] satisfies [p]. *)
Fixpoint str_forall (p : ascii → bool) (s : string) : bool :=
  match s with
  | EmptyString => true
  | String c s' => p c && str_forall p s'
  end.

(** Whether [json.dump] can write [data] to a file whose encoding accepts
    the characters picked by [encodes]: every string of the document, key
    or value, must consist of accepted characters. *)
Fixpoint encodable (encodes : ascii → bool) (data : json) : bool :=
  match data with
  | JStr s => str_forall encodes s
  | JArr items => forallb (encodable encodes) items
  | JObj fields =>
      forallb (fun field => let '(key, value) := field in
                            str_forall encodes key && encodable encodes value)
              fields
  | _ => true
  end.

Definition missing_url : string := "blocks/missing_texture.png".

(** [block.get('url') == 'blocks/missing_texture.png'] for a [dict]. *)
Definition url_is_missing (fields : list (string * json)) : bool :=
  match dict_get "url" fields with
  | Some (JStr url) => String.eqb url missing_url
  | _ => false
  end.

(** A record that the updater selects for rematching. *)
Definition eligible (block : json) : bool :=
  match block with
  | JObj fields => url_is_missing fields
  | _ => false
  end.

(** ** Files, console and exceptions *)

Inductive exception : Type :=
| FileNotFoundError
| JSONDecodeError
| AttributeError
| TypeError
| UnicodeEncodeError.

(** The text of [blocks.json]: either it does not parse, or it is the
    serialization of a JSON value. *)
Inductive json_text : Type :=
| Malformed
| Encodes (data : json).

(** The two files of the working directory; [None] is a missing file.
    [files.txt] is its list of lines. *)
Record files : Type := Files {
  files_txt : option (list string);
  blocks_json : option json_text
}.

Record stats : Type := Stats {
  total_processed : nat;
  missing_found : nat;
  updated : nat;
  still_missing : nat
}.

(** The lines printed on the console. *)
Inductive message : Type :=
| MsgStarting
| MsgBlocksFile (path : string)
| MsgTexturesFile (path : string)
| MsgRule
| MsgLoadedTextures (n : nat)
| MsgLoadedBlocks (n : nat)
| MsgUpdated (block_name old_url new_url : string)
| MsgNoMatch (block_name : string)
| MsgCompleted
| MsgTotal (n : nat)
| MsgMissingFound (n : nat)
| MsgUpdatedCount (n : nat)
| MsgStillMissing (n : nat)
| MsgSuccessRate (percent : Q)
| MsgFileNotFound
| MsgInvalidJSON
| MsgUnexpected (e : exception).

(** A computation: from the files to the files, the lines printed and the
    exception raised or the value returned. *)
Definition IO (A : Type) : Type := files → files * list message * (exception + A).

Definition io_ret {A} (a : A) : IO A := fun fs => (fs, [], inr a).

Definition io_bind {A B} (k : A → IO B) (m : IO A) : IO B :=
  fun fs =>
    match m fs with
    | (fs1, out1, inl e) => (fs1, out1, inl e)
    | (fs1, out1, inr a) =>
        match k a fs1 with
        | (fs2, out2, r) => (fs2, out1 ++ out2, r)
        end
    end.

#[global] Instance IO_ret : MRet IO := @io_ret.
#[global] Instance IO_bind : MBind IO := @io_bind.

Definition raise {A} (e : exception) : IO A := fun fs => (fs, [], inl e).

Definition print (m : message) : IO unit := fun fs => (fs, [m], inr tt).

Definition final_files {A} (r : files * list message * (exception + A)) : files :=
  r.1.1.
Definition printed {A} (r : files * list message * (exception + A)) : list message :=
  r.1.2.
Definition outcome {A} (r : files * list message * (exception + A)) : exception + A :=
  r.2.

(** ** The catalog updater *)

Section Updater.

(** The order in which Python iterates a set of strings.  The language
    leaves it open; the development holds for every choice. *)
Variable set_order : gset string → list string.

(** The characters that the encoding of [blocks.json] accepts when the file
    is written. *)
Variable encodes : ascii → bool.

(** [{line.strip() for line in f if line.strip().endswith('.png')}] *)
Definition texture_set (lines : list string) : gset string :=
  list_to_set (List.filter (str_endswith ".png") (str_strip <$> lines)).

Definition load_available_textures : IO (list string) :=
  fun fs =>
    match files_txt fs with
    | None => (fs, [], inl FileNotFoundError)
    | Some lines => (fs, [], inr (set_order (texture_set lines)))
    end.

(** [with open(blocks_json_path, 'r') as f: blocks_data = json.load(f)] *)
Definition load_blocks : IO json :=
  fun fs =>
    match blocks_json fs with
    | None => (fs, [], inl FileNotFoundError)
    | Some Malformed => (fs, [], inl JSONDecodeError)
    | Some (Encodes data) => (fs, [], inr data)
    end.

(** [with open(blocks_json_path, 'w') as f: json.dump(blocks_data, f, ...)]:
    opening the file for writing empties it; the dump then writes the
    document piece by piece and raises at the first string that cannot be
    encoded, so that the file is left with a cut-off text. *)
Definition save_blocks (data : json) : IO unit :=
  fun fs =>
    if encodable encodes data
    then (Files (files_txt fs) (Some (Encodes data)), [], inr tt)
    else (Files (files_txt fs) (Some Malformed), [], inl UnicodeEncodeError).

(** [len(blocks_data)]: numbers, booleans and [None] have no length. *)
Definition py_len (data : json) : IO nat :=
  match data with
  | JArr items => mret (length items)
  | JObj fields => mret (length fields)
  | JStr s => mret (String.length s)
  | _ => raise TypeError
  end.

(** One turn of the loop body on [block], with the counters [st]; the
    result is the counters and the block after the turn. *)
Definition process_block (available_textures : list string)
    (st : stats) (block : json) : IO (stats * json) :=
  let st := Stats (total_processed st + 1) (missing_found st)
                  (updated st) (still_missing st) in
  match block with
  | JObj fields =>
      if url_is_missing fields then
        let st := Stats (total_processed st) (missing_found st + 1)
                        (updated st) (still_missing st) in
        match default (JStr "") (dict_get "name" fields) with
        | JStr block_name =>
            let matching_texture :=
              find_matching_texture block_name available_textures in
            if negb (String.eqb matching_texture "missing_texture.png") then
              let old_url := missing_url in
              let new_url := "blocks/" +:+ matching_texture in
              print (MsgUpdated block_name old_url new_url) ;;
              mret (Stats (total_processed st) (missing_found st)
                         (updated st + 1) (still_missing st),
                   JObj (dict_set "url" (JStr new_url) fields))
            else
              print (MsgNoMatch block_name) ;;
              mret (Stats (total_processed st) (missing_found st)
                         (updated st) (still_missing st + 1),
                   block)
        | _ => raise AttributeError
        end
      else mret (st, block)
  | _ => raise AttributeError
  end.

(** [for block in blocks_data: ...] over the items of a list. *)
Fixpoint process_blocks (available_textures : list string)
    (st : stats) (blocks : list json) : IO (stats * list json) :=
  match blocks with
  | [] => mret (st, [])
  | block :: rest =>
      r ← process_block available_textures st block;
      r' ← process_blocks available_textures r.1 rest;
      mret (r'.1, r.2 :: r'.2)
  end.

(** The loop over [blocks_data], whatever JSON value it is.  Iterating a
    [dict] yields its keys and iterating a [str] its characters, all of
    them strings, on which [.get] raises at the first turn. *)
Definition process_data (available_textures : list string)
    (st : stats) (data : json) : IO (stats * json) :=
  match data with
  | JArr blocks =>
      r ← process_blocks available_textures st blocks;
      mret (r.1, JArr r.2)
  | JObj [] | JStr EmptyString => mret (st, data)
  | JObj (_ :: _) | JStr (String _ _) => raise AttributeError
  | _ => raise TypeError
  end.

Definition update_blocks_json : IO stats :=
  available_textures ← load_available_textures;
  print (MsgLoadedTextures (length available_textures));;
  blocks_data ← load_blocks;
  n ← py_len blocks_data;
  print (MsgLoadedBlocks n);;
  r ← process_data available_textures (Stats 0 0 0 0) blocks_data;
  save_blocks r.2;;
  mret r.1.

(** [(stats['updated'] / stats['missing_found']) * 100], as the exact
    rational that the floating-point value approximates. *)
Definition success_rate (st : stats) : Q :=
  ((Z.of_nat (updated st) # 1) / (Z.of_nat (missing_found st) # 1) * (100 # 1))%Q.

(** The lines of the summary, printed when the update returns. *)
Definition summary (st : stats) : list message :=
  [ MsgRule; MsgCompleted;
    MsgTotal (total_processed st);
    MsgMissingFound (missing_found st);
    MsgUpdatedCount (updated st);
    MsgStillMissing (still_missing st) ]
  ++ (if 0 <? updated st then [MsgSuccessRate (success_rate st)] else []).

(** The line of the [except] clause that catches [e]. *)
Definition error_message (e : exception) : message :=
  match e with
  | FileNotFoundError => MsgFileNotFound
  | JSONDecodeError => MsgInvalidJSON
  | _ => MsgUnexpected e
  end.

Definition banner : list message :=
  [ MsgStarting; MsgBlocksFile "blocks.json"; MsgTexturesFile "files.txt"; MsgRule ].

(** [main()]: the files after the run and the lines printed. *)
Definition main (fs : files) : files * list message :=
  match update_blocks_json fs with
  | (fs', out, inr st) => (fs', banner ++ out ++ summary st)
  | (fs', out, inl e) => (fs', banner ++ out ++ [error_message e])
  end.

End Updater.

(** ** The loop turns that do not raise

    What one turn of the loop of [update_blocks_json] does to a record when
    it returns: the record is not selected, or it is selected and its [url]
    is rewritten, or it is selected and no texture matches.  [process_block]
    is related to these three cases below. *)

Inductive turn_kind : Type := Skipped | Rewritten | StillMissing.

Inductive turn (available_textures : list string) : json → turn_kind → json → Prop :=
| turn_skipped fields :
    url_is_missing fields = false →
    turn available_textures (JObj fields) Skipped (JObj fields)
| turn_rewritten fields block_name :
    url_is_missing fields = true →
    default (JStr "") (dict_get "name" fields) = JStr block_name →
    find_matching_texture block_name available_textures ≠ "missing_texture.png" →
    turn available_textures (JObj fields) Rewritten
      (JObj (dict_set "url"
               (JStr ("blocks/" +:+ find_matching_texture block_name available_textures))
               fields))
| turn_still_missing fields block_name :
    url_is_missing fields = true →
    default (JStr "") (dict_get "name" fields) = JStr block_name →
    find_matching_texture block_name available_textures = "missing_texture.png" →
    turn available_textures (JObj fields) StillMissing (JObj fields).

(** The counters after a turn of the given kind. *)
Definition bump (st : stats) (k : turn_kind) : stats :=
  match k with
  | Skipped =>
      Stats (total_processed st + 1) (missing_found st) (updated st) (still_missing st)
  | Rewritten =>
      Stats (total_processed st + 1) (missing_found st + 1)
            (updated st + 1) (still_missing st)
  | StillMissing =>
      Stats (total_processed st + 1) (missing_found st + 1)
            (updated st) (still_missing st + 1)
  end.

(** The counters after turns of the given kinds, in sequence. *)
Definition bumps (st : stats) (ks : list turn_kind) : stats := foldl bump st ks.

(** A whole pass: one turn per record, in sequence. *)
Inductive pass (available_textures : list string)
  : list json → list turn_kind → list json → Prop :=
| pass_nil : pass available_textures [] [] []
| pass_cons block k block' blocks ks blocks' :
    turn available_textures block k block' →
    pass available_textures blocks ks blocks' →
    pass available_textures (block :: blocks) (k :: ks) (block' :: blocks').

(** The loop over [blocks_data] when it returns: over a list it is a pass;
    the only other values on which it returns are the empty [dict] and the
    empty [str], with no turn at all. *)
Inductive data_pass (available_textures : list string)
  : json → stats → json → Prop :=
| data_pass_list blocks ks blocks' :
    pass available_textures blocks ks blocks' →
    data_pass available_textures (JArr blocks) (bumps (Stats 0 0 0 0) ks) (JArr blocks')
| data_pass_empty_dict :
    data_pass available_textures (JObj []) (Stats 0 0 0 0) (JObj [])
| data_pass_empty_str :
    data_pass available_textures (JStr "") (Stats 0 0 0 0) (JStr "").

(** What a run does, by the state of the two files: it stops before the
    write with an exception and both files as they were; or it returns after
    the loop and the write; or the dump raises after the loop and leaves
    [blocks.json] cut off. *)
Inductive run_case (set_order : gset string → list string) (encodes : ascii → bool)
    (fs : files) : Prop :=
| run_stops e :
    outcome (update_blocks_json set_order encodes fs) = inl e →
    e ≠ UnicodeEncodeError →
    final_files (update_blocks_json set_order encodes fs) = fs →
    run_case set_order encodes fs
| run_returns st lines data data' :
    outcome (update_blocks_json set_order encodes fs) = inr st →
    files_txt fs = Some lines →
    blocks_json fs = Some (Encodes data) →
    data_pass (set_order (texture_set lines)) data st data' →
    encodable encodes data' = true →
    final_files (update_blocks_json set_order encodes fs)
    = Files (Some lines) (Some (Encodes data')) →
    run_case set_order encodes fs
| run_cut_off st lines data data' :
    outcome (update_blocks_json set_order encodes fs) = inl UnicodeEncodeError →
    files_txt fs = Some lines →
    blocks_json fs = Some (Encodes data) →
    data_pass (set_order (texture_set lines)) data st data' →
    encodable encodes data' = false →
    final_files (update_blocks_json set_order encodes fs)
    = Files (Some lines) (Some Malformed) →
    run_case set_order encodes fs.

(** Two iteration orders of the candidate set between which a second run
    sees what the first run saw: the same order, or two orders of the same
    candidates none of which is named like the sentinel. *)
Definition reruns_agree (l1 l2 : list string) : Prop :=
  l1 = l2 ∨ (l1 ≡ₚ l2 ∧ "missing_texture.png" ∉ l1).

(** The lines that only [main] prints for the success rate. *)
Definition is_rate (m : message) : bool :=
  match m with
  | MsgSuccessRate _ => true
  | _ => false
  end.

(** A record on which a turn of the loop does not raise: a [dict] whose
    [name], when the record is selected, is a string or is absent. *)
Definition record_ok (block : json) : bool :=
  match block with
  | JObj fields =>
      if url_is_missing fields then
        match default (JStr "") (dict_get "name" fields) with
        | JStr _ => true
        | _ => false
        end
      else true
  | _ => false
  end.

(** ** A small catalog

    Three records: one whose name matches a texture exactly, one that
    matches nothing, and one that already has a texture. *)

(** An encoding that accepts every character of the catalog. *)
Definition all_encode : ascii → bool := fun _ => true.

(** An encoding that rejects the letter [z], to show a dump that raises. *)
Definition rejects_z : ascii → bool := fun c => negb (Ascii.eqb c "z").

Definition example_listing : list string :=
  ["stone.png"; "  oak_log.png "; "notes.txt"; ""].

Definition example_blocks : list json :=
  [ JObj [("name", JStr "Oak_Log"); ("id", JNum 17);
          ("url", JStr "blocks/missing_texture.png")];
    JObj [("url", JStr "blocks/missing_texture.png"); ("name", JStr "zzz")];
    JObj [("name", JStr "stone"); ("url", JStr "blocks/stone.png")] ].

Definition example_files : files :=
  Files (Some example_listing) (Some (Encodes (JArr example_blocks))).

(** One record with the sentinel [url] that no texture matches. *)
Definition unmatched_files : files :=
  Files (Some ["stone.png"])
        (Some (Encodes (JArr [JObj [("name", JStr "zzz");
                                    ("url", JStr "blocks/missing_texture.png")]]))).

(** A record whose [name] is not a string raises in the middle of the loop,
    after the first record has been rewritten in memory; the file keeps the
    first record as it was. *)
Definition broken_files : files :=
  Files (Some ["oak_log.png"])
        (Some (Encodes (JArr
           [ JObj [("name", JStr "oak_log"); ("url", JStr "blocks/missing_texture.png")];
             JObj [("name", JNum 3); ("url", JStr "blocks/missing_texture.png")] ]))).

(** Two candidates of the same length that both contain the block name
    [texture], one of them named like the sentinel. *)
Definition tie_files : files :=
  Files (Some ["missing_texture.png"; "texture_missing.png"])
        (Some (Encodes (JArr [JObj [("name", JStr "texture");
                                    ("url", JStr "blocks/missing_texture.png")]]))).

(** ** Predicates used to state properties of strings and of the console *)

(** The number of occurrences of the character [c] in [s]. *)
Fixpoint str_count (c : ascii) (s : string) : nat :=
  match s with
  | EmptyString => 0
  | String d s' => (if Ascii.eqb d c then 1 else 0) + str_count c s'
  end.

(** The last character of [s] satisfies [p]; false on the empty string. *)
Fixpoint str_last_is (p : ascii → bool) (s : string) : bool :=
  match s with
  | EmptyString => false
  | String c EmptyString => p c
  | String _ s' => str_last_is p s'
  end.

(** The first character of [s] satisfies [p]; false on the empty string. *)
Definition str_first_is (p : ascii → bool) (s : string) : bool :=
  match s with
  | EmptyString => false
  | String c _ => p c
  end.

(** The lines that [update_blocks_json] prints. *)
Definition is_progress_line (m : message) : bool :=
  match m with
  | MsgLoadedTextures _ | MsgLoadedBlocks _ | MsgUpdated _ _ _ | MsgNoMatch _ => true
  | _ => false
  end.

Definition is_updated_line (m : message) : bool :=
  match m with
  | MsgUpdated _ _ _ => true
  | _ => false
  end.

Definition is_no_match_line (m : message) : bool :=
  match m with
  | MsgNoMatch _ => true
  | _ => false
  end.

(** The lines of the three [except] clauses of [main]. *)
Definition is_error_line (m : message) : bool :=
  match m with
  | MsgFileNotFound | MsgInvalidJSON | MsgUnexpected _ => true
  | _ => false
  end.

(** * Properties *)

(** ** The string operations on small inputs *)

Example str_split_keeps_empty_parts : str_split "_" "a__b" = ["a"; ""; "b"].
Proof. reflexivity. Qed.

Example str_split_empty : str_split "_" "" = [""].
Proof. reflexivity. Qed.

Example str_replace_all_occurrences :
  str_replace "polished_" "" "a_polished_polished_b" = "a_b"
  ∧ str_replace ".png" "" "a.png.png" = "a"
  ∧ str_replace "aa" "b" "aaa" = "ba".
Proof. repeat split. Qed.

Example part_combos_order :
  part_combos ["a"; "b"; "c"] = ["a"; "a_b"; "a_b_c"; "b"; "b_c"; "c"].
Proof. reflexivity. Qed.

Example str_strip_both_sides : str_strip "  a b.png  " = "a b.png".
Proof. reflexivity. Qed.

Example texture_set_example :
  texture_set example_listing = {[ "stone.png"; "oak_log.png" ]}.
Proof. vm_compute. reflexivity. Qed.

Example min_by_len_first_of_ties :
  min_by_len "bbb.png" ["a.png"; "c.png"; "dddd.png"] = "a.png".
Proof. reflexivity. Qed.

Example find_matching_texture_prefixed :
  find_matching_texture "andesite" ["stone_andesite.png"] = "stone_andesite.png".
Proof. reflexivity. Qed.

Example find_matching_texture_smooth :
  find_matching_texture "polished_andesite" ["andesite_smooth.png"]
  = "andesite_smooth.png".
Proof. reflexivity. Qed.

Example find_matching_texture_nothing :
  find_matching_texture "zzz" ["stone.png"; "oak_log.png"] = "missing_texture.png".
Proof. vm_compute. reflexivity. Qed.

(** ** The building blocks of the matcher *)

Section MatcherFacts.

Implicit Types (forms available_textures : list string) (v : string).

Lemma mem_true v available_textures :
  mem v available_textures = true ↔ v ∈ available_textures.
Proof. unfold mem. apply bool_decide_eq_true. Qed.

Lemma mem_false v available_textures :
  mem v available_textures = false ↔ v ∉ available_textures.
Proof. unfold mem. apply bool_decide_eq_false. Qed.

Lemma first_present_Some forms available_textures v :
  first_present forms available_textures = Some v →
  v ∈ forms ∧ v ∈ available_textures.
Proof.
  unfold first_present. intros Hf. apply find_some in Hf as [Hin Hm].
  split; [by apply list_elem_of_In | by apply mem_true].
Qed.

Lemma first_present_None forms available_textures :
  first_present forms available_textures = None ↔
  ∀ v, v ∈ forms → v ∉ available_textures.
Proof.
  unfold first_present. split.
  - intros Hf v Hin. apply mem_false.
    apply (find_none _ _ Hf). by apply list_elem_of_In.
  - intros Hall. induction forms as [|f forms IH]; [done|]. simpl.
    destruct (mem f available_textures) eqn:Hm.
    + apply mem_true in Hm. exfalso. apply (Hall f); [left | done].
    + apply IH. intros v Hv. apply Hall. by right.
Qed.

Lemma first_present_cons_hit f forms available_textures :
  f ∈ available_textures →
  first_present (f :: forms) available_textures = Some f.
Proof.
  intros Hin. unfold first_present. simpl.
  apply mem_true in Hin. by rewrite Hin.
Qed.

Lemma first_present_cons_miss f forms available_textures :
  f ∉ available_textures →
  first_present (f :: forms) available_textures
  = first_present forms available_textures.
Proof.
  intros Hin. unfold first_present. simpl.
  apply mem_false in Hin. by rewrite Hin.
Qed.

Lemma min_by_len_elem best l : min_by_len best l ∈ best :: l.
Proof.
  revert best. induction l as [|x l IH]; intros best; simpl.
  - left.
  - destruct (String.length x <? String.length best).
    + right. apply IH.
    + specialize (IH best). apply elem_of_cons in IH as [-> | IH].
      * left.
      * right. by right.
Qed.

Lemma best_matches_subset block_name available_textures v :
  v ∈ best_matches block_name available_textures → v ∈ available_textures.
Proof.
  unfold best_matches. rewrite !list_elem_of_In, filter_In. tauto.
Qed.

Lemma fuzzy_tier_Some block_name available_textures v :
  fuzzy_tier block_name available_textures = Some v →
  v ∈ available_textures.
Proof.
  unfold fuzzy_tier.
  destruct (best_matches block_name available_textures) as [|m ms] eqn:Hb; [done|].
  intros [= <-]. apply (best_matches_subset block_name). rewrite Hb.
  apply min_by_len_elem.
Qed.

Lemma polished_tier_Some block_name available_textures v :
  polished_tier block_name available_textures = Some v →
  v ∈ available_textures.
Proof.
  unfold polished_tier. destruct (str_contains _ _); [|done].
  intros Hf. by apply first_present_Some in Hf as [_ ?].
Qed.

(** A hit of the sub-phrase tier is one of the three forms of a joined
    contiguous range of parts, and it is a candidate: the tier compares
    whole file names, never substrings. *)
Lemma combo_tier_Some block_name available_textures v :
  combo_tier block_name available_textures = Some v →
  v ∈ available_textures ∧
  ∃ part_combo,
    part_combo ∈ part_combos (str_split "_" block_name) ∧
    v ∈ test_variations part_combo.
Proof.
  unfold combo_tier. destruct (1 <? _); [|done].
  intros Hf. apply first_present_Some in Hf as [Hin Hav]. split; [done|].
  apply list_elem_of_bind in Hin as (combo & Hv & Hc). eauto.
Qed.

End MatcherFacts.

(** ** The matcher returns a candidate or the sentinel *)

(** C1: for every block name and every candidate set, the value returned by
    [find_matching_texture] is an element of the candidate set or the
    literal ["missing_texture.png"]. *)
Theorem find_matching_texture_candidate_or_sentinel
    (block_name : string) (available_textures : list string) :
  find_matching_texture block_name available_textures ∈ available_textures
  ∨ find_matching_texture block_name available_textures = "missing_texture.png".
Proof.
  unfold find_matching_texture.
  destruct (mem _ available_textures) eqn:Hexact.
  { left. by apply mem_true. }
  destruct (first_present _ available_textures) as [v|] eqn:Hvar.
  { left. by apply first_present_Some in Hvar as [_ ?]. }
  destruct (polished_tier _ available_textures) as [v|] eqn:Hpol.
  { left. by apply polished_tier_Some in Hpol. }
  destruct (combo_tier _ available_textures) as [v|] eqn:Hcombo.
  { left. by apply combo_tier_Some in Hcombo as [? _]. }
  destruct (fuzzy_tier _ available_textures) as [v|] eqn:Hfuzzy.
  { left. by apply fuzzy_tier_Some in Hfuzzy. }
  by right.
Qed.

(** ** Tier 1: the exact match wins *)

(** C3: when the lower-cased block name with [".png"] appended is a
    candidate, the matcher returns exactly that candidate, whatever the
    later tiers would match. *)
Theorem find_matching_texture_exact
    (block_name : string) (available_textures : list string) :
  str_lower block_name +:+ ".png" ∈ available_textures →
  find_matching_texture block_name available_textures
  = str_lower block_name +:+ ".png".
Proof.
  intros Hin. unfold find_matching_texture.
  apply mem_true in Hin. by rewrite Hin.
Qed.

Lemma find_matching_texture_exact_witness :
  "oak_log.png" ∈ ["oak_log_top.png"; "stone_oak_log.png"; "oak_log.png"]
  ∧ find_matching_texture "Oak_Log"
      ["oak_log_top.png"; "stone_oak_log.png"; "oak_log.png"] = "oak_log.png".
Proof.
  split.
  - by apply (bool_decide_unpack _).
  - apply (find_matching_texture_exact "Oak_Log").
    by apply (bool_decide_unpack _).
Defined.

(** ** Tier 3: the "polished" forms *)

(** C5, as the code has it: for a lower-cased block name that contains
    [polished] and misses the exact and the prefixed tiers, the base name is
    the name with every occurrence of [polished_] deleted (the token with
    the underscore after it), and the matcher returns the first candidate
    among [stone_<base>_smooth.png], [<base>_smooth.png] and
    [polished_<base>.png], tried in that order. *)
Theorem find_matching_texture_polished
    (block_name name base : string) (available_textures : list string) :
  name = str_lower block_name →
  base = str_replace "polished_" "" name →
  str_contains "polished" name = true →
  name +:+ ".png" ∉ available_textures →
  (∀ v, v ∈ variations name → v ∉ available_textures) →
  (polished_base_name name = base)
  ∧ ("stone_" +:+ base +:+ "_smooth.png" ∈ available_textures →
     find_matching_texture block_name available_textures
     = "stone_" +:+ base +:+ "_smooth.png")
  ∧ ("stone_" +:+ base +:+ "_smooth.png" ∉ available_textures →
     base +:+ "_smooth.png" ∈ available_textures →
     find_matching_texture block_name available_textures
     = base +:+ "_smooth.png")
  ∧ ("stone_" +:+ base +:+ "_smooth.png" ∉ available_textures →
     base +:+ "_smooth.png" ∉ available_textures →
     "polished_" +:+ base +:+ ".png" ∈ available_textures →
     find_matching_texture block_name available_textures
     = "polished_" +:+ base +:+ ".png").
Proof.
  intros -> -> Hpol Hexact Hvar.
  apply mem_false in Hexact. apply first_present_None in Hvar.
  split; [done|].
  unfold find_matching_texture, polished_tier.
  rewrite Hexact, Hvar, Hpol. unfold smooth_variations, polished_base_name.
  split; [|split].
  - intros H1. by rewrite (first_present_cons_hit _ _ _ H1).
  - intros H1 H2.
    rewrite (first_present_cons_miss _ _ _ H1).
    by rewrite (first_present_cons_hit _ _ _ H2).
  - intros H1 H2 H3.
    rewrite (first_present_cons_miss _ _ _ H1).
    rewrite (first_present_cons_miss _ _ _ H2).
    by rewrite (first_present_cons_hit _ _ _ H3).
Qed.

Lemma find_matching_texture_polished_witness :
  find_matching_texture "Polished_Andesite"
    ["polished_andesite_top.png"; "andesite_smooth.png"] = "andesite_smooth.png".
Proof.
  refine (proj1 (proj2 (proj2 (find_matching_texture_polished
    "Polished_Andesite" "polished_andesite" "andesite"
    ["polished_andesite_top.png"; "andesite_smooth.png"] _ _ _ _ _))) _ _).
  - reflexivity.
  - reflexivity.
  - reflexivity.
  - apply mem_false. reflexivity.
  - apply first_present_None. reflexivity.
  - apply mem_false. reflexivity.
  - apply mem_true. reflexivity.
Defined.

(** C5 as the specification words it, with the token stripped from the
    [_]-separated parts of the name, does not hold: for [granite_polished]
    the code deletes nothing, so [granite_smooth.png] is never tried. *)
Lemma polished_token_stripping_refuted :
  ¬ (∀ (block_name : string) (available_textures : list string),
       str_contains "polished" (str_lower block_name) = true →
       str_lower block_name +:+ ".png" ∉ available_textures →
       (∀ v, v ∈ variations (str_lower block_name) → v ∉ available_textures) →
       ∀ f,
         first_present
           (smooth_variations (spec_strip_token (str_lower block_name)))
           available_textures = Some f →
         find_matching_texture block_name available_textures = f).
Proof.
  intros H.
  specialize (H "granite_polished" ["granite_smooth.png"]).
  assert (find_matching_texture "granite_polished" ["granite_smooth.png"]
          = "granite_smooth.png") as Hbad.
  { apply H.
    - reflexivity.
    - apply mem_false. reflexivity.
    - apply first_present_None. reflexivity.
    - reflexivity. }
  vm_compute in Hbad. discriminate Hbad.
Qed.

(** The same with the token read as a substring: stripping [polished] from
    [polished_andesite] leaves [_andesite], which is not the base name the
    code computes. *)
Lemma polished_substring_stripping_refuted :
  ¬ (∀ (block_name : string) (available_textures : list string),
       str_contains "polished" (str_lower block_name) = true →
       str_lower block_name +:+ ".png" ∉ available_textures →
       (∀ v, v ∈ variations (str_lower block_name) → v ∉ available_textures) →
       ∀ f,
         first_present
           (smooth_variations (spec_strip_substring (str_lower block_name)))
           available_textures = Some f →
         find_matching_texture block_name available_textures = f).
Proof.
  intros H.
  specialize (H "polished_andesite" ["_andesite_smooth.png"]).
  assert (find_matching_texture "polished_andesite" ["_andesite_smooth.png"]
          = "_andesite_smooth.png") as Hbad.
  { apply H.
    - reflexivity.
    - apply mem_false. reflexivity.
    - apply first_present_None. reflexivity.
    - reflexivity. }
  vm_compute in Hbad. discriminate Hbad.
Qed.

(** Where the two agree: a name of the shape [polished_<rest>] whose rest
    has no further [polished]. *)
Example polished_base_name_andesite :
  polished_base_name "polished_andesite" = "andesite"
  ∧ spec_strip_token "polished_andesite" = "andesite"
  ∧ polished_base_name "granite_polished" = "granite_polished"
  ∧ spec_strip_token "granite_polished" = "granite".
Proof. repeat split. Qed.

(** ** Tier 4 against tier 5 on [oak_log] *)

(** C6: with the candidate set [{"oak_log_top.png"}] and the block name
    [oak_log], the sub-phrase tier tests only whole file names built from
    contiguous ranges of parts and misses; the matcher reaches the fuzzy
    tier and returns ["oak_log_top.png"]. *)
Theorem oak_log_falls_through_to_fuzzy :
  part_combos (str_split "_" "oak_log") ≫= test_variations
  = [ "oak.png"; "stone_oak.png"; "planks_oak.png";
      "oak_log.png"; "stone_oak_log.png"; "planks_oak_log.png";
      "log.png"; "stone_log.png"; "planks_log.png" ]
  ∧ mem "oak_log.png" ["oak_log_top.png"] = false
  ∧ first_present (variations "oak_log") ["oak_log_top.png"] = None
  ∧ polished_tier "oak_log" ["oak_log_top.png"] = None
  ∧ combo_tier "oak_log" ["oak_log_top.png"] = None
  ∧ fuzzy_tier "oak_log" ["oak_log_top.png"] = Some "oak_log_top.png"
  ∧ find_matching_texture "oak_log" ["oak_log_top.png"] = "oak_log_top.png".
Proof. repeat split; vm_compute; reflexivity. Qed.

(** ** Tier 5: the parts of the block name *)

Section FuzzyParts.

(** Deleting one character with [str_replace] keeps the other ones. *)
Lemma str_replace_char_cons (d c : ascii) (s : string) :
  str_replace (String d EmptyString) "" (String c s)
  = if Ascii.eqb d c then str_replace (String d EmptyString) "" s
    else String c (str_replace (String d EmptyString) "" s).
Proof.
  unfold str_replace. simpl.
  destruct (Ascii.ascii_dec d c) as [->|Hne].
  - rewrite Ascii.eqb_refl. by destruct s.
  - apply Ascii.eqb_neq in Hne. by rewrite Hne.
Qed.

Lemma str_contains_char_cons (d c : ascii) (s : string) :
  str_contains (String d EmptyString) (String c s)
  = Ascii.eqb d c || str_contains (String d EmptyString) s.
Proof.
  simpl. destruct (Ascii.ascii_dec d c) as [->|Hne].
  - rewrite Ascii.eqb_refl. by destruct s.
  - apply Ascii.eqb_neq in Hne. by rewrite Hne.
Qed.

Lemma str_replace_char_gone (d : ascii) (s : string) :
  str_contains (String d EmptyString) (str_replace (String d EmptyString) "" s)
  = false.
Proof.
  induction s as [|c s IH]; [done|].
  rewrite str_replace_char_cons. destruct (Ascii.eqb d c) eqn:Hdc; [done|].
  by rewrite str_contains_char_cons, Hdc, IH.
Qed.

Lemma str_replace_char_keeps_absent (d e : ascii) (s : string) :
  str_contains (String e EmptyString) s = false →
  str_contains (String e EmptyString) (str_replace (String d EmptyString) "" s)
  = false.
Proof.
  induction s as [|c s IH]; [done|].
  rewrite str_contains_char_cons, str_replace_char_cons.
  intros [Hec Hs]%orb_false_iff.
  destruct (Ascii.eqb d c); [by apply IH|].
  rewrite str_contains_char_cons, Hec. by apply IH.
Qed.

Lemma normalize_name_no_underscore (name : string) :
  str_contains "_" (normalize_name name) = false.
Proof.
  unfold normalize_name.
  do 2 apply str_replace_char_keeps_absent.
  apply str_replace_char_gone.
Qed.

Lemma str_split_absent (sep : ascii) (s : string) :
  str_contains (String sep EmptyString) s = false →
  str_split sep s = [s].
Proof.
  induction s as [|c s IH]; [done|].
  rewrite str_contains_char_cons. intros [Hc Hs]%orb_false_iff.
  simpl. rewrite Ascii.eqb_sym, Hc, (IH Hs). done.
Qed.

(** Whatever the block name, the code's [block_parts] is the one-element
    list of the whole normalized name: [normalized_block] has no
    underscore left to split on. *)
Lemma block_parts_single (block_name : string) :
  block_parts block_name (normalize_name block_name)
  = [normalize_name block_name].
Proof.
  unfold block_parts. destruct (str_contains "_" block_name); [|done].
  apply str_split_absent, normalize_name_no_underscore.
Qed.

Lemma fuzzy_qualifies_whole_name (block_name texture : string) :
  fuzzy_qualifies block_name (normalize_name block_name) texture
  = (2 <? String.length (normalize_name block_name))
    && str_contains (normalize_name block_name)
         (normalize_name (str_replace ".png" "" texture)).
Proof.
  unfold fuzzy_qualifies. rewrite block_parts_single. simpl.
  apply orb_false_r.
Qed.

End FuzzyParts.

(** C2 at [oak_log] with the candidate [log_big_oak.png]: the four strict
    tiers miss; the parts of the specification are [oak] and [log], and
    [oak] is a substring of [logbigoak], so the candidate qualifies by the
    specification; the code tests the single part [oaklog], finds no
    qualifying candidate and returns the sentinel. *)
Theorem fuzzy_parts_not_split :
  mem "oak_log.png" ["log_big_oak.png"] = false
  ∧ first_present (variations "oak_log") ["log_big_oak.png"] = None
  ∧ polished_tier "oak_log" ["log_big_oak.png"] = None
  ∧ combo_tier "oak_log" ["log_big_oak.png"] = None
  ∧ spec_block_parts "oak_log" = ["oak"; "log"]
  ∧ spec_fuzzy_qualifies "oak_log" "log_big_oak.png" = true
  ∧ block_parts "oak_log" (normalize_name "oak_log") = ["oaklog"]
  ∧ fuzzy_qualifies "oak_log" (normalize_name "oak_log") "log_big_oak.png" = false
  ∧ find_matching_texture "oak_log" ["log_big_oak.png"] = "missing_texture.png".
Proof. repeat split; vm_compute; reflexivity. Qed.

(** ** The updater: runs of the loop *)

Ltac io_unfold :=
  unfold mbind, IO_bind, io_bind, mret, IO_ret, io_ret, print, raise in *.

Section UpdaterFacts.

Variable set_order : gset string → list string.
Variable encodes : ascii → bool.

Implicit Types (fs : files) (st : stats) (block : json) (blocks : list json)
  (available_textures : list string) (out : list message).

Lemma dict_get_set_eq key value d :
  dict_get key (dict_set key value d) = Some value.
Proof.
  induction d as [|[k v] d IH]; simpl.
  - by rewrite String.eqb_refl.
  - destruct (String.eqb k key) eqn:Hk; simpl; by rewrite Hk.
Qed.

Lemma dict_get_set_ne key key' value d :
  key' ≠ key → dict_get key' (dict_set key value d) = dict_get key' d.
Proof.
  intros Hne. induction d as [|[k v] d IH]; simpl.
  - apply String.eqb_neq in Hne. by rewrite String.eqb_sym, Hne.
  - destruct (String.eqb k key) eqn:Hk; simpl; [|by rewrite IH].
    apply String.eqb_eq in Hk as ->.
    assert (String.eqb key key' = false) as ->; [|done].
    apply String.eqb_neq. congruence.
Qed.

Lemma dict_set_keys key value d :
  is_Some (dict_get key d) → (dict_set key value d).*1 = d.*1.
Proof.
  induction d as [|[k v] d IH]; simpl.
  - by intros [? ?].
  - destruct (String.eqb k key) eqn:Hk; simpl; [done|].
    intros H. f_equal. by apply IH.
Qed.

Lemma url_is_missing_Some fields :
  url_is_missing fields = true →
  dict_get "url" fields = Some (JStr "blocks/missing_texture.png").
Proof.
  unfold url_is_missing.
  destruct (dict_get "url" fields) as [[| | |url| |]|]; try done.
  by intros ->%String.eqb_eq.
Qed.

Lemma url_is_missing_rewritten texture fields :
  texture ≠ "missing_texture.png" →
  url_is_missing (dict_set "url" (JStr ("blocks/" +:+ texture)) fields) = false.
Proof.
  intros Hne. unfold url_is_missing. rewrite dict_get_set_eq.
  apply String.eqb_neq. intros Heq. apply Hne.
  by injection Heq.
Qed.

(** A turn that returns is one of the three cases, and leaves the files
    alone. *)
Lemma process_block_inr available_textures st block fs fs' out st' block' :
  process_block available_textures st block fs = (fs', out, inr (st', block')) →
  fs' = fs ∧ ∃ k, turn available_textures block k block' ∧ st' = bump st k.
Proof.
  unfold process_block. destruct block as [| | | | |fields]; io_unfold; try done.
  destruct (url_is_missing fields) eqn:Hurl.
  - destruct (default (JStr "") (dict_get "name" fields))
      as [| | |block_name| |] eqn:Hname; try done.
    destruct (String.eqb _ _) eqn:Hm; simpl; intros [= <- <- <- <-]; (split; [done|]).
    + exists StillMissing. split; [|done].
      apply String.eqb_eq in Hm. by eapply turn_still_missing.
    + exists Rewritten. split; [|done].
      apply String.eqb_neq in Hm. by eapply turn_rewritten.
  - intros [= <- <- <- <-]. split; [done|].
    exists Skipped. split; [|done]. by constructor.
Qed.

(** Conversely each of the three cases is a turn that returns. *)
Lemma process_block_turn available_textures block k block' st fs :
  turn available_textures block k block' →
  ∃ out, process_block available_textures st block fs
         = (fs, out, inr (bump st k, block')).
Proof.
  intros Ht. destruct Ht as [fields Hurl|fields name Hurl Hname Hm|fields name Hurl Hname Hm];
    unfold process_block; io_unfold; rewrite Hurl.
  - by eexists.
  - rewrite Hname. apply String.eqb_neq in Hm. rewrite Hm. simpl. by eexists.
  - rewrite Hname, Hm. simpl. by eexists.
Qed.

Lemma process_block_files available_textures st block fs :
  final_files (process_block available_textures st block fs) = fs.
Proof.
  unfold process_block, final_files. io_unfold.
  destruct block as [| | | | |fields]; try done.
  destruct (url_is_missing fields); [|done].
  destruct (default _ _); try done.
  by destruct (negb _).
Qed.

Lemma process_blocks_files available_textures blocks st fs :
  final_files (process_blocks available_textures st blocks fs) = fs.
Proof.
  revert st fs. induction blocks as [|block blocks IH]; intros st fs; [done|].
  simpl. unfold final_files in *. io_unfold.
  pose proof (process_block_files available_textures st block fs) as Hb.
  unfold final_files in Hb.
  destruct (process_block available_textures st block fs) as [[fs1 out1] [e|r]];
    simpl in *; subst fs1; [done|].
  specialize (IH r.1 fs).
  destruct (process_blocks available_textures r.1 blocks fs) as [[fs2 out2] [e|r']];
    simpl in *; by subst fs2.
Qed.

Lemma process_blocks_inr available_textures blocks st fs fs' out st' blocks' :
  process_blocks available_textures st blocks fs = (fs', out, inr (st', blocks')) →
  ∃ ks, pass available_textures blocks ks blocks' ∧ st' = bumps st ks.
Proof.
  revert st fs fs' out st' blocks'.
  induction blocks as [|block blocks IH]; intros st fs fs' out st' blocks'; simpl.
  - io_unfold. intros [= <- <- <- <-]. exists []. split; [constructor | done].
  - io_unfold.
    destruct (process_block available_textures st block fs)
      as [[fs1 out1] [e|[st1 block1]]] eqn:Hb; [done|].
    apply process_block_inr in Hb as (-> & k & Hturn & ->). simpl.
    destruct (process_blocks available_textures (bump st k) blocks fs)
      as [[fs2 out2] [e|[st2 blocks2]]] eqn:Hbs; [done|].
    apply IH in Hbs as (ks & Hpass & ->). simpl.
    intros [= <- <- <- <-]. exists (k :: ks). split; [by constructor | done].
Qed.

Lemma process_blocks_pass available_textures blocks ks blocks' st fs :
  pass available_textures blocks ks blocks' →
  ∃ out, process_blocks available_textures st blocks fs
         = (fs, out, inr (bumps st ks, blocks')).
Proof.
  intros Hpass. revert st.
  induction Hpass as [|block k block' blocks ks blocks' Hturn Hpass IH]; intros st.
  - by eexists.
  - simpl. io_unfold.
    destruct (process_block_turn available_textures block k block' st fs Hturn)
      as [out1 ->]. simpl.
    destruct (IH (bump st k)) as [out2 ->]. simpl. by eexists.
Qed.

Lemma process_blocks_no_rate available_textures blocks st fs :
  Forall (fun m => is_rate m = false)
         (printed (process_blocks available_textures st blocks fs)).
Proof.
  revert st fs. induction blocks as [|block blocks IH]; intros st fs.
  - constructor.
  - simpl. unfold printed in *. io_unfold.
    assert (Forall (fun m => is_rate m = false)
              (process_block available_textures st block fs).1.2) as Hb.
    { unfold process_block. io_unfold.
      destruct block as [| | | | |fields]; try by constructor.
      destruct (url_is_missing fields); [|by constructor].
      destruct (default _ _); try by constructor.
      destruct (negb _); simpl; by repeat constructor. }
    destruct (process_block available_textures st block fs)
      as [[fs1 out1] [e|r]]; simpl in *; [done|].
    specialize (IH r.1 fs1).
    destruct (process_blocks available_textures r.1 blocks fs1)
      as [[fs2 out2] [e|r']]; simpl in *; rewrite ?app_nil_r;
      by apply Forall_app.
Qed.

Lemma process_block_inl available_textures st block fs e :
  outcome (process_block available_textures st block fs) = inl e →
  e = AttributeError.
Proof.
  unfold process_block, outcome. io_unfold.
  destruct block as [| | | | |fields]; simpl; try by intros [= <-].
  destruct (url_is_missing fields); [|done].
  destruct (default _ _); simpl; try by intros [= <-].
  by destruct (negb _).
Qed.

Lemma process_blocks_inl available_textures blocks st fs e :
  outcome (process_blocks available_textures st blocks fs) = inl e →
  e = AttributeError.
Proof.
  revert st fs. induction blocks as [|block blocks IH]; intros st fs; [done|].
  simpl. unfold outcome in *. io_unfold.
  pose proof (process_block_inl available_textures st block fs) as Hb.
  unfold outcome in Hb.
  destruct (process_block available_textures st block fs) as [[fs1 out1] [e1|r]];
    simpl in *; [intros [= <-]; by apply Hb|].
  specialize (IH r.1 fs1).
  destruct (process_blocks available_textures r.1 blocks fs1) as [[fs2 out2] [e2|r']];
    simpl in *; [intros [= <-]; by apply IH | done].
Qed.

(** *** Runs of [update_blocks_json] *)

Lemma update_blocks_json_no_listing fs :
  files_txt fs = None →
  update_blocks_json set_order encodes fs = (fs, [], inl FileNotFoundError).
Proof.
  intros H. unfold update_blocks_json, load_available_textures. io_unfold.
  by rewrite H.
Qed.

Lemma update_blocks_json_no_blocks fs lines :
  files_txt fs = Some lines →
  blocks_json fs = None →
  update_blocks_json set_order encodes fs
  = (fs, [MsgLoadedTextures (length (set_order (texture_set lines)))],
     inl FileNotFoundError).
Proof.
  intros Hl Hb.
  unfold update_blocks_json, load_available_textures, load_blocks. io_unfold.
  by rewrite Hl, Hb.
Qed.

Lemma update_blocks_json_malformed fs lines :
  files_txt fs = Some lines →
  blocks_json fs = Some Malformed →
  update_blocks_json set_order encodes fs
  = (fs, [MsgLoadedTextures (length (set_order (texture_set lines)))],
     inl JSONDecodeError).
Proof.
  intros Hl Hb.
  unfold update_blocks_json, load_available_textures, load_blocks. io_unfold.
  by rewrite Hl, Hb.
Qed.

(** The run on a list of records, in terms of the loop and of the write. *)
Lemma update_blocks_json_list fs lines blocks :
  files_txt fs = Some lines →
  blocks_json fs = Some (Encodes (JArr blocks)) →
  let available_textures := set_order (texture_set lines) in
  let loaded := [MsgLoadedTextures (length available_textures);
                 MsgLoadedBlocks (length blocks)] in
  update_blocks_json set_order encodes fs
  = match process_blocks available_textures (Stats 0 0 0 0) blocks fs with
    | (_, out, inl e) => (fs, loaded ++ out, inl e)
    | (_, out, inr r) =>
        if encodable encodes (JArr r.2)
        then (Files (Some lines) (Some (Encodes (JArr r.2))), loaded ++ out, inr r.1)
        else (Files (Some lines) (Some Malformed), loaded ++ out,
              inl UnicodeEncodeError)
    end.
Proof.
  intros Hl Hb. simpl.
  unfold update_blocks_json, load_available_textures, load_blocks, py_len,
    process_data, save_blocks. io_unfold.
  rewrite Hl, Hb. simpl.
  pose proof (process_blocks_files (set_order (texture_set lines)) blocks
                (Stats 0 0 0 0) fs) as Hfs.
  unfold final_files in Hfs.
  destruct (process_blocks _ _ blocks fs) as [[fs1 out1] [e|r]];
    simpl in *; subst fs1; simpl; rewrite ?Hl, ?app_nil_r; [done|].
  destruct (forallb (encodable encodes) r.2); simpl; by rewrite ?Hl, ?app_nil_r.
Qed.

(** A pass over the records of the file is a run that reaches the write. *)
Lemma update_blocks_json_pass_write fs lines blocks ks blocks' :
  files_txt fs = Some lines →
  blocks_json fs = Some (Encodes (JArr blocks)) →
  pass (set_order (texture_set lines)) blocks ks blocks' →
  if encodable encodes (JArr blocks')
  then outcome (update_blocks_json set_order encodes fs)
       = inr (bumps (Stats 0 0 0 0) ks)
       ∧ final_files (update_blocks_json set_order encodes fs)
         = Files (Some lines) (Some (Encodes (JArr blocks')))
  else outcome (update_blocks_json set_order encodes fs) = inl UnicodeEncodeError
       ∧ final_files (update_blocks_json set_order encodes fs)
         = Files (Some lines) (Some Malformed).
Proof.
  intros Hl Hb Hpass.
  rewrite (update_blocks_json_list _ lines blocks Hl Hb). simpl.
  destruct (process_blocks_pass _ _ _ _ (Stats 0 0 0 0) fs Hpass) as [out ->].
  simpl. by destruct (forallb (encodable encodes) blocks').
Qed.

Lemma update_blocks_json_pass fs lines blocks ks blocks' :
  files_txt fs = Some lines →
  blocks_json fs = Some (Encodes (JArr blocks)) →
  pass (set_order (texture_set lines)) blocks ks blocks' →
  encodable encodes (JArr blocks') = true →
  outcome (update_blocks_json set_order encodes fs) = inr (bumps (Stats 0 0 0 0) ks)
  ∧ final_files (update_blocks_json set_order encodes fs)
    = Files (Some lines) (Some (Encodes (JArr blocks'))).
Proof.
  intros Hl Hb Hpass Henc.
  pose proof (update_blocks_json_pass_write fs lines blocks ks blocks' Hl Hb Hpass) as H.
  by rewrite Henc in H.
Qed.

(** A loop that returns is a run that reaches the write. *)
Lemma data_pass_run fs lines data st data' :
  files_txt fs = Some lines →
  blocks_json fs = Some (Encodes data) →
  data_pass (set_order (texture_set lines)) data st data' →
  if encodable encodes data'
  then outcome (update_blocks_json set_order encodes fs) = inr st
       ∧ final_files (update_blocks_json set_order encodes fs)
         = Files (Some lines) (Some (Encodes data'))
  else outcome (update_blocks_json set_order encodes fs) = inl UnicodeEncodeError
       ∧ final_files (update_blocks_json set_order encodes fs)
         = Files (Some lines) (Some Malformed).
Proof.
  intros Hl Hb Hpass. revert Hb.
  destruct Hpass as [blocks ks blocks' Hp| |]; intros Hb.
  - by apply (update_blocks_json_pass_write fs lines blocks ks blocks').
  - unfold update_blocks_json, load_available_textures, load_blocks, py_len,
      process_data, save_blocks, outcome, final_files; io_unfold.
    rewrite Hl, Hb. simpl. by rewrite Hl.
  - unfold update_blocks_json, load_available_textures, load_blocks, py_len,
      process_data, save_blocks, outcome, final_files; io_unfold.
    rewrite Hl, Hb. simpl. by rewrite Hl.
Qed.

Lemma update_blocks_json_cases fs : run_case set_order encodes fs.
Proof.
  destruct (files_txt fs) as [lines|] eqn:Hl.
  2:{ apply (run_stops set_order encodes fs FileNotFoundError); [|done|];
        by rewrite update_blocks_json_no_listing. }
  destruct (blocks_json fs) as [[|data]|] eqn:Hb.
  1:{ apply (run_stops set_order encodes fs JSONDecodeError); [|done|];
        by rewrite (update_blocks_json_malformed _ lines). }
  2:{ apply (run_stops set_order encodes fs FileNotFoundError); [|done|];
        by rewrite (update_blocks_json_no_blocks _ lines). }
  destruct data as [| | |s|blocks|fields].
  - apply (run_stops set_order encodes fs TypeError); [| done |];
      unfold update_blocks_json, load_available_textures, load_blocks, py_len;
      io_unfold; by rewrite Hl, Hb.
  - apply (run_stops set_order encodes fs TypeError); [| done |];
      unfold update_blocks_json, load_available_textures, load_blocks, py_len;
      io_unfold; by rewrite Hl, Hb.
  - apply (run_stops set_order encodes fs TypeError); [| done |];
      unfold update_blocks_json, load_available_textures, load_blocks, py_len;
      io_unfold; by rewrite Hl, Hb.
  - destruct s as [|c s].
    + apply (run_returns set_order encodes fs (Stats 0 0 0 0) lines (JStr "") (JStr ""));
        try done; try constructor;
        unfold update_blocks_json, load_available_textures, load_blocks, py_len,
          process_data, save_blocks, outcome, final_files; io_unfold;
        rewrite Hl, Hb; simpl; by rewrite ?Hl.
    + apply (run_stops set_order encodes fs AttributeError); [| done |];
        unfold update_blocks_json, load_available_textures, load_blocks, py_len,
          process_data; io_unfold; by rewrite Hl, Hb.
  - pose proof (update_blocks_json_list fs lines blocks Hl Hb) as Heq. simpl in Heq.
    destruct (process_blocks (set_order (texture_set lines)) (Stats 0 0 0 0) blocks fs)
      as [[fs1 out1] [e|[st blocks']]] eqn:Hp.
    + assert (e = AttributeError) as ->.
      { apply (process_blocks_inl (set_order (texture_set lines)) blocks
                 (Stats 0 0 0 0) fs). by rewrite Hp. }
      apply (run_stops set_order encodes fs AttributeError); [|done|]; by rewrite Heq.
    + apply process_blocks_inr in Hp as (ks & Hpass & ->). simpl in Heq.
      destruct (forallb (encodable encodes) blocks') eqn:Henc.
      * apply (run_returns set_order encodes fs (bumps (Stats 0 0 0 0) ks) lines
                 (JArr blocks) (JArr blocks'));
          try done; [by rewrite Heq | by constructor | by rewrite Heq].
      * apply (run_cut_off set_order encodes fs (bumps (Stats 0 0 0 0) ks) lines
                 (JArr blocks) (JArr blocks'));
          try done; [by rewrite Heq | by constructor | by rewrite Heq].
  - destruct fields as [|field fields].
    + apply (run_returns set_order encodes fs (Stats 0 0 0 0) lines (JObj []) (JObj []));
        try done; try constructor;
        unfold update_blocks_json, load_available_textures, load_blocks, py_len,
          process_data, save_blocks, outcome, final_files; io_unfold;
        rewrite Hl, Hb; simpl; by rewrite ?Hl.
    + apply (run_stops set_order encodes fs AttributeError); [| done |];
        unfold update_blocks_json, load_available_textures, load_blocks, py_len,
          process_data; io_unfold; by rewrite Hl, Hb.
Qed.

(** An exception raised before the write leaves both files as they were. *)
Lemma update_blocks_json_inl fs e :
  outcome (update_blocks_json set_order encodes fs) = inl e →
  e ≠ UnicodeEncodeError →
  final_files (update_blocks_json set_order encodes fs) = fs.
Proof.
  intros Hrun Hne.
  destruct (update_blocks_json_cases fs)
    as [e' He' _ Hfs|st lines data data' Hst|st lines data data' Hcut]; [done|..].
  - by rewrite Hst in Hrun.
  - rewrite Hcut in Hrun. by injection Hrun as <-.
Qed.


(** A run that returns found both files, looped without raising and wrote
    the records once, after the loop. *)
Lemma update_blocks_json_inr_encodable fs st :
  outcome (update_blocks_json set_order encodes fs) = inr st →
  ∃ lines data data',
    files_txt fs = Some lines ∧
    blocks_json fs = Some (Encodes data) ∧
    data_pass (set_order (texture_set lines)) data st data' ∧
    encodable encodes data' = true ∧
    final_files (update_blocks_json set_order encodes fs)
    = Files (Some lines) (Some (Encodes data')).
Proof.
  intros Hrun.
  destruct (update_blocks_json_cases fs)
    as [e' He' _ _|st' lines data data' Hst Hl Hb Hp Henc Hfs|st' lines data data' Hcut].
  - by rewrite He' in Hrun.
  - rewrite Hst in Hrun. injection Hrun as <-. by exists lines, data, data'.
  - by rewrite Hcut in Hrun.
Qed.

Lemma update_blocks_json_inr fs st :
  outcome (update_blocks_json set_order encodes fs) = inr st →
  ∃ lines data data',
    files_txt fs = Some lines ∧
    blocks_json fs = Some (Encodes data) ∧
    data_pass (set_order (texture_set lines)) data st data' ∧
    final_files (update_blocks_json set_order encodes fs)
    = Files (Some lines) (Some (Encodes data')).
Proof.
  intros Hrun.
  destruct (update_blocks_json_inr_encodable fs st Hrun)
    as (lines & data & data' & ? & ? & ? & _ & ?).
  by exists lines, data, data'.
Qed.

Lemma update_blocks_json_no_rate fs :
  Forall (fun m => is_rate m = false)
         (printed (update_blocks_json set_order encodes fs)).
Proof.
  destruct (files_txt fs) as [lines|] eqn:Hl;
    [|rewrite update_blocks_json_no_listing; [constructor | done]].
  destruct (blocks_json fs) as [[|data]|] eqn:Hb;
    [rewrite (update_blocks_json_malformed _ lines); [by repeat constructor|done..]| |
     rewrite (update_blocks_json_no_blocks _ lines); [by repeat constructor|done..]].
  destruct data as [| | |s|blocks|fields].
  1-4,6: unfold update_blocks_json, load_available_textures, load_blocks, py_len,
      process_data, save_blocks, printed; io_unfold;
      rewrite Hl, Hb; simpl; try by repeat constructor.
  - destruct s; simpl; by repeat constructor.
  - destruct fields; simpl; by repeat constructor.
  - rewrite (update_blocks_json_list _ lines blocks Hl Hb). simpl.
    pose proof (process_blocks_no_rate (set_order (texture_set lines)) blocks
                  (Stats 0 0 0 0) fs) as Hp.
    unfold printed in *.
    destruct (process_blocks _ _ blocks fs) as [[fs1 out1] [e'|r]]; simpl in *;
      [by repeat constructor|].
    destruct (forallb (encodable encodes) r.2); simpl; by repeat constructor.
Qed.

End UpdaterFacts.

(** ** Runs that stop before the write *)

Section BeforeWrite.

Variable set_order : gset string → list string.
Variables encodes encodes' : ascii → bool.

(** A run that stops before the write does not depend on what the
    encoding of the file accepts. *)
Lemma update_blocks_json_same_before_write (fs : files) (e : exception) :
  outcome (update_blocks_json set_order encodes fs) = inl e →
  e ≠ UnicodeEncodeError →
  update_blocks_json set_order encodes' fs = update_blocks_json set_order encodes fs.
Proof.
  intros He Hne.
  destruct (files_txt fs) as [lines|] eqn:Hl;
    [|by rewrite !update_blocks_json_no_listing].
  destruct (blocks_json fs) as [[|data]|] eqn:Hb;
    [by rewrite !(update_blocks_json_malformed _ _ _ lines)| |
     by rewrite !(update_blocks_json_no_blocks _ _ _ lines)].
  destruct data as [| | |[|c s]|blocks|[|field fields]].
  1-5,7-8: unfold update_blocks_json, load_available_textures, load_blocks, py_len,
      process_data, save_blocks; io_unfold; by rewrite Hl, Hb.
  rewrite (update_blocks_json_list set_order encodes fs lines blocks Hl Hb) in *.
  rewrite (update_blocks_json_list set_order encodes' fs lines blocks Hl Hb).
  simpl in *.
  destruct (process_blocks _ _ blocks fs) as [[fs1 out1] [e1|r]]; [done|].
  exfalso. unfold outcome in He.
  destruct (forallb (encodable encodes) r.2); simpl in He; [done|].
  by injection He as <-.
Qed.

Lemma main_same_before_write (fs : files) (e : exception) :
  outcome (update_blocks_json set_order encodes fs) = inl e →
  e ≠ UnicodeEncodeError →
  main set_order encodes' fs = main set_order encodes fs.
Proof.
  intros He Hne. unfold main.
  by rewrite (update_blocks_json_same_before_write fs e He Hne).
Qed.

End BeforeWrite.

(** ** The counters *)

Section Counters.

Variable set_order : gset string → list string.
Variable encodes : ascii → bool.

Lemma turn_eligible available_textures block k block' :
  turn available_textures block k block' →
  eligible block = match k with Skipped => false | _ => true end.
Proof. by intros [fields H|fields name H ? ?|fields name H ? ?]. Qed.

Lemma pass_length available_textures blocks ks blocks' :
  pass available_textures blocks ks blocks' →
  length ks = length blocks ∧ length blocks' = length blocks.
Proof. induction 1 as [|? ? ? ? ? ? _ _ [IH1 IH2]]; simpl; auto. Qed.

Lemma pass_counters available_textures blocks ks blocks' :
  pass available_textures blocks ks blocks' →
  ∀ st,
    total_processed (bumps st ks) = total_processed st + length blocks
    ∧ missing_found (bumps st ks)
      = missing_found st + length (List.filter eligible blocks)
    ∧ updated (bumps st ks) + still_missing (bumps st ks)
      = updated st + still_missing st + length (List.filter eligible blocks).
Proof.
  induction 1 as [|block k block' blocks ks blocks' Hturn _ IH]; intros st.
  - simpl. lia.
  - apply turn_eligible in Hturn. unfold bumps in *. simpl. rewrite Hturn.
    destruct (IH (bump st k)) as (-> & -> & ->).
    destruct k; simpl; lia.
Qed.

Lemma record_ok_turn available_textures block :
  record_ok block = true → ∃ k block', turn available_textures block k block'.
Proof.
  destruct block as [| | | | |fields]; try done. simpl.
  destruct (url_is_missing fields) eqn:Hurl.
  - destruct (default (JStr "") (dict_get "name" fields))
      as [| | |block_name| |] eqn:Hname; try done.
    intros _.
    destruct (decide (find_matching_texture block_name available_textures
                      = "missing_texture.png")) as [Hm|Hm].
    + exists StillMissing. eexists. by eapply turn_still_missing.
    + exists Rewritten. eexists. by eapply turn_rewritten.
  - intros _. exists Skipped. eexists. by constructor.
Qed.

Lemma records_ok_pass available_textures blocks :
  Forall (fun block => record_ok block = true) blocks →
  ∃ ks blocks', pass available_textures blocks ks blocks'.
Proof.
  induction 1 as [|block blocks Hok _ (ks & blocks' & IH)].
  - exists [], []. constructor.
  - destruct (record_ok_turn available_textures block Hok) as (k & block' & Hturn).
    exists (k :: ks), (block' :: blocks'). by constructor.
Qed.

Lemma turn_record_ok available_textures block k block' :
  turn available_textures block k block' → record_ok block = true.
Proof.
  intros [fields Hurl|fields name Hurl Hname Hm|fields name Hurl Hname Hm];
    simpl; rewrite Hurl; [done|by rewrite Hname..].
Qed.

Lemma pass_records_ok available_textures blocks ks blocks' :
  pass available_textures blocks ks blocks' →
  Forall (fun block => record_ok block = true) blocks.
Proof.
  induction 1 as [|block k block' blocks ks blocks' Hturn _ IH]; constructor;
    [by eapply turn_record_ok | done].
Qed.

Lemma turn_eligible_after available_textures block k block' :
  turn available_textures block k block' →
  eligible block' = match k with StillMissing => true | _ => false end.
Proof.
  intros [fields Hurl|fields name Hurl Hname Hm|fields name Hurl Hname Hm]; simpl;
    [done| |done].
  by apply url_is_missing_rewritten.
Qed.

Lemma pass_still_missing available_textures blocks ks blocks' :
  pass available_textures blocks ks blocks' →
  ∀ st, still_missing (bumps st ks)
        = still_missing st + length (List.filter eligible blocks').
Proof.
  induction 1 as [|block k block' blocks ks blocks' Hturn _ IH]; intros st.
  - simpl. lia.
  - apply turn_eligible_after in Hturn. unfold bumps in *. simpl.
    rewrite Hturn, IH. destruct k; simpl; lia.
Qed.

(** C10: after a run over a list of records, the number of records
    processed is the length of the list, [missing_found] is the number of
    records whose [url] is the sentinel, and it is the sum of [updated]
    and [still_missing]; and when the listing exists and no record makes a
    turn raise, the run does return its counters, unless the dump of the
    final write raises. *)
Theorem update_blocks_json_counters (fs : files) (blocks : list json) :
  blocks_json fs = Some (Encodes (JArr blocks)) →
  (∀ st, outcome (update_blocks_json set_order encodes fs) = inr st →
     total_processed st = length blocks
     ∧ missing_found st = length (List.filter eligible blocks)
     ∧ missing_found st = updated st + still_missing st)
  ∧ (is_Some (files_txt fs) →
     Forall (fun block => record_ok block = true) blocks →
     (∃ st, outcome (update_blocks_json set_order encodes fs) = inr st)
     ∨ outcome (update_blocks_json set_order encodes fs) = inl UnicodeEncodeError).
Proof.
  intros Hb. split.
  - intros st Hrun.
    apply update_blocks_json_inr in Hrun
      as (lines & data & data' & Hl & Hb' & Hpass & _).
    rewrite Hb in Hb'. injection Hb' as <-.
    inversion Hpass as [blocks0 ks blocks' Hp| |]; subst.
    destruct (pass_counters _ _ _ _ Hp (Stats 0 0 0 0)) as (Ht & Hm & Hu).
    simpl in *. lia.
  - intros [lines Hl] Hok.
    destruct (records_ok_pass (set_order (texture_set lines)) blocks Hok)
      as (ks & blocks' & Hp).
    pose proof (update_blocks_json_pass_write set_order encodes fs lines blocks ks
                  blocks' Hl Hb Hp) as Hw.
    destruct (encodable encodes (JArr blocks')).
    + left. exists (bumps (Stats 0 0 0 0) ks). by destruct Hw.
    + right. by destruct Hw.
Qed.

End Counters.

Lemma update_blocks_json_counters_witness :
  outcome (update_blocks_json elements all_encode example_files) = inr (Stats 3 2 1 1)
  ∧ total_processed (Stats 3 2 1 1) = length example_blocks
  ∧ missing_found (Stats 3 2 1 1) = length (List.filter eligible example_blocks)
  ∧ missing_found (Stats 3 2 1 1)
    = updated (Stats 3 2 1 1) + still_missing (Stats 3 2 1 1).
Proof.
  assert (outcome (update_blocks_json elements all_encode example_files) = inr (Stats 3 2 1 1))
    as Hrun by (vm_compute; reflexivity).
  split; [exact Hrun|].
  refine (proj1 (update_blocks_json_counters elements all_encode example_files example_blocks _)
            (Stats 3 2 1 1) Hrun).
  reflexivity.
Defined.

(** ** What a run changes *)

Section Frame.

Variable set_order : gset string → list string.
Variable encodes : ascii → bool.

(** [d[key] = value] on a present key touches the item of that key and no
    other position. *)
Lemma dict_set_lookup key value (d : list (string * json)) (j : nat) :
  is_Some (dict_get key d) →
  dict_set key value d !! j = d !! j
  ∨ ∃ old, d !! j = Some (key, old) ∧ dict_set key value d !! j = Some (key, value).
Proof.
  revert j. induction d as [|[k v] d IH]; intros j; simpl.
  - by intros [? ?].
  - destruct (String.eqb k key) eqn:Hk.
    + intros _. apply String.eqb_eq in Hk as ->.
      destruct j as [|j]; simpl; [right; by exists v | by left].
    + intros Hsome. destruct j as [|j]; simpl; [by left | by apply IH].
Qed.

Lemma pass_lookup available_textures blocks ks blocks' (i : nat) block :
  pass available_textures blocks ks blocks' →
  blocks !! i = Some block →
  ∃ k block', blocks' !! i = Some block' ∧ turn available_textures block k block'.
Proof.
  intros Hpass. revert i.
  induction Hpass as [|b k b' blocks ks blocks' Hturn _ IH]; intros i; [done|].
  destruct i as [|i]; simpl.
  - intros [= ->]. eauto.
  - apply IH.
Qed.

(** C9: a run that returns writes back a list of the same length in which
    every record is the one read at that position, except the records
    whose [url] is the sentinel and whose name the matcher resolves: of
    those the [url] item alone is changed, to ["blocks/"] followed by the
    matched file name, all other items staying in place. *)
Theorem update_blocks_json_frame
    (fs : files) (lines : list string) (blocks : list json) (st : stats) :
  files_txt fs = Some lines →
  blocks_json fs = Some (Encodes (JArr blocks)) →
  outcome (update_blocks_json set_order encodes fs) = inr st →
  ∃ blocks',
    final_files (update_blocks_json set_order encodes fs)
    = Files (Some lines) (Some (Encodes (JArr blocks')))
    ∧ length blocks' = length blocks
    ∧ ∀ (i : nat) block, blocks !! i = Some block →
        ∃ block', blocks' !! i = Some block' ∧
          ((block' = block ∧
            (eligible block = false
             ∨ ∃ fields block_name,
                 block = JObj fields
                 ∧ default (JStr "") (dict_get "name" fields) = JStr block_name
                 ∧ find_matching_texture block_name (set_order (texture_set lines))
                   = "missing_texture.png"))
           ∨ ∃ fields fields' block_name matching_texture,
               block = JObj fields ∧ block' = JObj fields'
               ∧ dict_get "url" fields = Some (JStr "blocks/missing_texture.png")
               ∧ default (JStr "") (dict_get "name" fields) = JStr block_name
               ∧ matching_texture
                 = find_matching_texture block_name (set_order (texture_set lines))
               ∧ matching_texture ≠ "missing_texture.png"
               ∧ dict_get "url" fields' = Some (JStr ("blocks/" +:+ matching_texture))
               ∧ fields'.*1 = fields.*1
               ∧ (∀ key, key ≠ "url" → dict_get key fields' = dict_get key fields)
               ∧ (∀ j : nat,
                    fields' !! j = fields !! j
                    ∨ ∃ old, fields !! j = Some ("url", old)
                             ∧ fields' !! j
                               = Some ("url", JStr ("blocks/" +:+ matching_texture)))).
Proof.
  intros Hl Hb Hrun.
  apply update_blocks_json_inr in Hrun as (lines' & data & data' & Hl' & Hb' & Hpass & Hfs).
  rewrite Hl in Hl'. injection Hl' as <-.
  rewrite Hb in Hb'. injection Hb' as <-.
  inversion Hpass as [blocks0 ks blocks' Hp| |]; subst.
  exists blocks'. split; [done|]. split; [by apply pass_length in Hp as [_ ?]|].
  intros i block Hi.
  destruct (pass_lookup _ _ _ _ _ _ Hp Hi) as (k & block' & Hi' & Hturn).
  exists block'. split; [done|].
  destruct Hturn as [fields Hurl|fields name Hurl Hname Hm|fields name Hurl Hname Hm].
  - left. split; [done|]. by left.
  - right. apply url_is_missing_Some in Hurl.
    eexists fields, _, name, _. repeat split; try done.
    + apply dict_get_set_eq.
    + apply dict_set_keys. by rewrite Hurl.
    + intros key Hkey. by apply dict_get_set_ne.
    + intros j. apply dict_set_lookup. by rewrite Hurl.
  - left. split; [done|]. right. eauto.
Qed.

End Frame.

Lemma update_blocks_json_frame_witness :
  ∃ blocks',
    final_files (update_blocks_json elements all_encode example_files)
    = Files (Some example_listing) (Some (Encodes (JArr blocks')))
    ∧ blocks' !! 0 = Some (JObj [("name", JStr "Oak_Log"); ("id", JNum 17);
                                 ("url", JStr "blocks/oak_log.png")])
    ∧ blocks' !! 1 = example_blocks !! 1
    ∧ blocks' !! 2 = example_blocks !! 2.
Proof.
  destruct (update_blocks_json_frame elements all_encode example_files example_listing
              example_blocks (Stats 3 2 1 1))
    as (blocks' & Hfs & _ & _).
  - reflexivity.
  - reflexivity.
  - vm_compute. reflexivity.
  - exists blocks'. split; [exact Hfs|].
    vm_compute in Hfs. injection Hfs as <-. repeat split.
Defined.

(** ** Errors and the write-back *)

Section Errors.

Variable set_order : gset string → list string.
Variable encodes : ascii → bool.

Lemma main_files (fs : files) :
  (main set_order encodes fs).1 = final_files (update_blocks_json set_order encodes fs).
Proof.
  unfold main, final_files.
  by destruct (update_blocks_json set_order encodes fs) as [[fs' out] [e|st]].
Qed.

Lemma main_printed_inl (fs : files) (e : exception) :
  outcome (update_blocks_json set_order encodes fs) = inl e →
  (main set_order encodes fs).2
  = banner ++ printed (update_blocks_json set_order encodes fs) ++ [error_message e].
Proof.
  unfold main, outcome, printed.
  destruct (update_blocks_json set_order encodes fs) as [[fs' out] [e'|st]]; simpl; [|done].
  by intros [= ->].
Qed.

Lemma main_printed_inr (fs : files) (st : stats) :
  outcome (update_blocks_json set_order encodes fs) = inr st →
  (main set_order encodes fs).2
  = banner ++ printed (update_blocks_json set_order encodes fs) ++ summary st.
Proof.
  unfold main, outcome, printed.
  destruct (update_blocks_json set_order encodes fs) as [[fs' out] [e'|st']]; simpl; [done|].
  by intros [= ->].
Qed.

(** Which exception each kind of bad input raises. *)
Lemma update_blocks_json_load_errors (fs : files) :
  (files_txt fs = None →
   outcome (update_blocks_json set_order encodes fs) = inl FileNotFoundError)
  ∧ (is_Some (files_txt fs) → blocks_json fs = None →
     outcome (update_blocks_json set_order encodes fs) = inl FileNotFoundError)
  ∧ (is_Some (files_txt fs) → blocks_json fs = Some Malformed →
     outcome (update_blocks_json set_order encodes fs) = inl JSONDecodeError).
Proof.
  split; [|split].
  - intros H. by rewrite update_blocks_json_no_listing.
  - intros [lines Hl] Hb. by rewrite (update_blocks_json_no_blocks _ _ _ lines).
  - intros [lines Hl] Hb. by rewrite (update_blocks_json_malformed _ _ _ lines).
Qed.

(** When taking the length or the loop raises, the run raises that
    exception, prints what was printed so far and does not reach the
    write. *)
Lemma update_blocks_json_loop_raises (fs : files) lines data e :
  files_txt fs = Some lines →
  blocks_json fs = Some (Encodes data) →
  outcome (py_len data fs) = inl e
  ∨ outcome (process_data (set_order (texture_set lines)) (Stats 0 0 0 0) data fs)
    = inl e →
  outcome (update_blocks_json set_order encodes fs) = inl e
  ∧ e ≠ UnicodeEncodeError.
Proof.
  intros Hl Hb Hraise. unfold outcome in Hraise.
  destruct data as [| | |[|c s]|blocks|[|field fields]];
    unfold py_len, process_data in Hraise; io_unfold; simpl in Hraise.
  1-5,7-8: destruct Hraise as [H|H]; try discriminate H; injection H as <-;
    (split; [|done]);
    unfold update_blocks_json, load_available_textures, load_blocks, py_len,
      process_data, outcome; io_unfold; by rewrite Hl, Hb.
  destruct Hraise as [H|H]; [discriminate H|].
  rewrite (update_blocks_json_list set_order encodes fs lines blocks Hl Hb). simpl.
  pose proof (process_blocks_inl (set_order (texture_set lines)) blocks
                (Stats 0 0 0 0) fs) as Hp.
  unfold outcome in *.
  destruct (process_blocks _ _ blocks fs) as [[fs1 out1] [e1|r]]; simpl in *; [|done].
  injection H as <-. split; [done|]. by rewrite (Hp e1 eq_refl).
Qed.

(** C8: when a file is missing, when [blocks.json] is malformed, or when
    taking the length of the records or the loop over them raises, [main]
    ends by printing the message of the exception and both files are as
    they were.  The write is not reached: the run is the same whatever the
    encoding of the file accepts, although the write would empty the file
    and then keep or cut off the text according to it. *)
Theorem main_error_writes_nothing (fs : files) :
  files_txt fs = None
  ∨ blocks_json fs = None
  ∨ blocks_json fs = Some Malformed
  ∨ (∃ lines data e,
       files_txt fs = Some lines
       ∧ blocks_json fs = Some (Encodes data)
       ∧ (outcome (py_len data fs) = inl e
          ∨ outcome (process_data (set_order (texture_set lines))
                       (Stats 0 0 0 0) data fs) = inl e)) →
  (main set_order encodes fs).1 = fs
  ∧ (∀ encodes', main set_order encodes' fs = main set_order encodes fs)
  ∧ ∃ e,
      outcome (update_blocks_json set_order encodes fs) = inl e
      ∧ last (main set_order encodes fs).2 = Some (error_message e)
      ∧ (files_txt fs = None → error_message e = MsgFileNotFound)
      ∧ (is_Some (files_txt fs) → blocks_json fs = None →
         error_message e = MsgFileNotFound)
      ∧ (is_Some (files_txt fs) → blocks_json fs = Some Malformed →
         error_message e = MsgInvalidJSON).
Proof.
  intros Hbad.
  destruct (update_blocks_json_load_errors fs) as (Hnl & Hnb & Hmal).
  assert (∃ e, outcome (update_blocks_json set_order encodes fs) = inl e
               ∧ e ≠ UnicodeEncodeError) as (e & He & Hne).
  { destruct (files_txt fs) as [lines|] eqn:Hl; [|by eauto].
    destruct Hbad as [?|[Hb|[Hb|(lines' & data & e & Hl' & Hb & Hraise)]]]; [done|..].
    - exists FileNotFoundError. split; [by eauto | done].
    - exists JSONDecodeError. split; [by eauto | done].
    - injection Hl' as <-. exists e.
      by apply (update_blocks_json_loop_raises fs lines data e). }
  split; [|split].
  - rewrite main_files. by apply (update_blocks_json_inl _ _ _ e).
  - intros enc. by apply (main_same_before_write set_order encodes enc fs e).
  - exists e. split; [done|]. split.
    + rewrite (main_printed_inl _ e He), !app_assoc. apply last_snoc.
    + repeat split.
      * intros H. specialize (Hnl H). rewrite He in Hnl. by injection Hnl as ->.
      * intros H1 H2. specialize (Hnb H1 H2). rewrite He in Hnb.
        by injection Hnb as ->.
      * intros H1 H2. specialize (Hmal H1 H2). rewrite He in Hmal.
        by injection Hmal as ->.
Qed.

(** X29: when [main] has changed a file, both files had been found and the
    loop had gone through all records without raising; [blocks.json] then
    holds the result of the loop, or a cut-off text when the dump raised. *)
Theorem main_writes_after_loop (fs : files) :
  (main set_order encodes fs).1 ≠ fs →
  ∃ st lines data data',
    files_txt fs = Some lines
    ∧ blocks_json fs = Some (Encodes data)
    ∧ data_pass (set_order (texture_set lines)) data st data'
    ∧ ((outcome (update_blocks_json set_order encodes fs) = inr st
        ∧ encodable encodes data' = true
        ∧ (main set_order encodes fs).1 = Files (Some lines) (Some (Encodes data')))
       ∨ (outcome (update_blocks_json set_order encodes fs) = inl UnicodeEncodeError
          ∧ encodable encodes data' = false
          ∧ (main set_order encodes fs).1 = Files (Some lines) (Some Malformed))).
Proof.
  intros Hne. rewrite main_files in *.
  destruct (update_blocks_json_cases set_order encodes fs)
    as [e He _ Hfs|st lines data data' Hst Hl Hb Hp Henc Hfs
       |st lines data data' Hcut Hl Hb Hp Henc Hfs]; [done|..].
  - exists st, lines, data, data'. repeat split; try done. by left.
  - exists st, lines, data, data'. repeat split; try done. by right.
Qed.

End Errors.

Lemma main_error_writes_nothing_witness :
  (main elements all_encode broken_files).1 = broken_files
  ∧ (∀ encodes', main elements encodes' broken_files
                 = main elements all_encode broken_files)
  ∧ ∃ e,
      outcome (update_blocks_json elements all_encode broken_files) = inl e
      ∧ last (main elements all_encode broken_files).2 = Some (error_message e)
      ∧ (files_txt broken_files = None → error_message e = MsgFileNotFound)
      ∧ (is_Some (files_txt broken_files) → blocks_json broken_files = None →
         error_message e = MsgFileNotFound)
      ∧ (is_Some (files_txt broken_files) →
         blocks_json broken_files = Some Malformed →
         error_message e = MsgInvalidJSON).
Proof.
  apply (main_error_writes_nothing elements all_encode broken_files).
  right. right. right.
  exists ["oak_log.png"],
    (JArr [ JObj [("name", JStr "oak_log"); ("url", JStr "blocks/missing_texture.png")];
            JObj [("name", JNum 3); ("url", JStr "blocks/missing_texture.png")] ]),
    AttributeError.
  split; [reflexivity|]. split; [reflexivity|].
  right. vm_compute. reflexivity.
Defined.

Example main_broken_files_output :
  (main elements all_encode broken_files).2
  = banner
    ++ [ MsgLoadedTextures 1; MsgLoadedBlocks 2;
         MsgUpdated "oak_log" "blocks/missing_texture.png" "blocks/oak_log.png";
         MsgUnexpected AttributeError ].
Proof. vm_compute. reflexivity. Qed.

Example main_missing_listing :
  main elements all_encode (Files None (Some Malformed))
  = (Files None (Some Malformed), banner ++ [MsgFileNotFound]).
Proof. vm_compute. reflexivity. Qed.

Example main_malformed_blocks :
  main elements all_encode (Files (Some ["a.png"]) (Some Malformed))
  = (Files (Some ["a.png"]) (Some Malformed),
     banner ++ [MsgLoadedTextures 1; MsgInvalidJSON]).
Proof. vm_compute. reflexivity. Qed.

(** ** Running the updater twice *)

Example main_twice_example :
  (main elements all_encode example_files).1
  = Files (Some example_listing)
      (Some (Encodes (JArr
         [ JObj [("name", JStr "Oak_Log"); ("id", JNum 17);
                 ("url", JStr "blocks/oak_log.png")];
           JObj [("url", JStr "blocks/missing_texture.png"); ("name", JStr "zzz")];
           JObj [("name", JStr "stone"); ("url", JStr "blocks/stone.png")] ])))
  ∧ (main elements all_encode (main elements all_encode example_files).1).1 = (main elements all_encode example_files).1
  ∧ (main elements all_encode example_files).2
    = banner
      ++ [ MsgLoadedTextures 2; MsgLoadedBlocks 3;
           MsgUpdated "Oak_Log" "blocks/missing_texture.png" "blocks/oak_log.png";
           MsgNoMatch "zzz" ]
      ++ [ MsgRule; MsgCompleted; MsgTotal 3; MsgMissingFound 2; MsgUpdatedCount 1;
           MsgStillMissing 1; MsgSuccessRate (success_rate (Stats 3 2 1 1)) ].
Proof. repeat split; vm_compute; reflexivity. Qed.

(** ** The success rate *)

Section SuccessRate.

Variable set_order : gset string → list string.
Variable encodes : ascii → bool.

Lemma update_blocks_json_counter_sum (fs : files) (st : stats) :
  outcome (update_blocks_json set_order encodes fs) = inr st →
  missing_found st = updated st + still_missing st.
Proof.
  intros Hrun.
  apply update_blocks_json_inr in Hrun as (lines & data & data' & _ & _ & Hpass & _).
  destruct Hpass as [blocks ks blocks' Hp| |]; [|done..].
  destruct (pass_counters _ _ _ _ Hp (Stats 0 0 0 0)) as (_ & Hm & Hu).
  simpl in *. lia.
Qed.

Lemma rate_in_summary (st : stats) (q : Q) :
  MsgSuccessRate q ∈ summary st ↔ 0 < updated st ∧ q = success_rate st.
Proof.
  unfold summary. rewrite elem_of_app. split.
  - intros [Hin|Hin].
    + repeat (apply elem_of_cons in Hin as [Hin|Hin]; [discriminate Hin|]).
      by apply elem_of_nil in Hin.
    + destruct (0 <? updated st) eqn:Hu; [|by apply elem_of_nil in Hin].
      apply Nat.ltb_lt in Hu. apply list_elem_of_singleton in Hin.
      by injection Hin as ->.
  - intros [Hu ->]. right. apply Nat.ltb_lt in Hu. rewrite Hu. left.
Qed.

Lemma rate_in_main (fs : files) (st : stats) (q : Q) :
  outcome (update_blocks_json set_order encodes fs) = inr st →
  MsgSuccessRate q ∈ (main set_order encodes fs).2 ↔ 0 < updated st ∧ q = success_rate st.
Proof.
  intros Hrun. rewrite (main_printed_inr _ _ _ st Hrun), <- rate_in_summary.
  rewrite !elem_of_app. split; [|by auto].
  intros [Hin|[Hin|Hin]]; [| |done].
  - unfold banner in Hin.
    repeat (apply elem_of_cons in Hin as [Hin|Hin]; [discriminate Hin|]).
    by apply elem_of_nil in Hin.
  - pose proof (update_blocks_json_no_rate set_order encodes fs) as Hno.
    rewrite Forall_forall in Hno. by apply Hno in Hin.
Qed.

Lemma success_rate_value (st : stats) :
  missing_found st ≠ 0 →
  (success_rate st * (Z.of_nat (missing_found st) # 1)
   == (100 * Z.of_nat (updated st)) # 1)%Q.
Proof.
  intros Hm. unfold success_rate.
  assert (¬ ((Z.of_nat (missing_found st) # 1) == 0)%Q) as Hnz.
  { unfold Qeq. simpl. lia. }
  transitivity ((Z.of_nat (updated st) # 1) * (100 # 1))%Q.
  - field. exact Hnz.
  - unfold Qeq. simpl. lia.
Qed.

(** C4, as the code has it: after a run that returns, [main] prints the
    success rate exactly when [updated] is positive; the value printed is
    [updated / missing_found * 100], [missing_found] being non-zero then;
    when no record was eligible the line is omitted. *)
Theorem success_rate_reported (fs : files) (st : stats) :
  outcome (update_blocks_json set_order encodes fs) = inr st →
  ((∃ q, MsgSuccessRate q ∈ (main set_order encodes fs).2) ↔ 0 < updated st)
  ∧ (∀ q, MsgSuccessRate q ∈ (main set_order encodes fs).2 →
       q = success_rate st
       ∧ missing_found st ≠ 0
       ∧ (q * (Z.of_nat (missing_found st) # 1)
          == (100 * Z.of_nat (updated st)) # 1)%Q)
  ∧ (missing_found st = 0 → ∀ q, MsgSuccessRate q ∉ (main set_order encodes fs).2).
Proof.
  intros Hrun.
  pose proof (update_blocks_json_counter_sum fs st Hrun) as Hsum.
  split; [|split].
  - split.
    + intros [q Hq]. by apply (rate_in_main fs st q Hrun) in Hq as [? _].
    + intros Hu. exists (success_rate st). by apply (rate_in_main fs st).
  - intros q Hq. apply (rate_in_main fs st q Hrun) in Hq as [Hu ->].
    assert (missing_found st ≠ 0) as Hm by lia.
    split; [done|]. split; [done|]. by apply success_rate_value.
  - intros Hm q Hq. apply (rate_in_main fs st q Hrun) in Hq as [Hu _]. lia.
Qed.

End SuccessRate.

Lemma success_rate_reported_witness :
  ((∃ q, MsgSuccessRate q ∈ (main elements all_encode example_files).2)
   ↔ 0 < updated (Stats 3 2 1 1))
  ∧ (∀ q, MsgSuccessRate q ∈ (main elements all_encode example_files).2 →
       q = success_rate (Stats 3 2 1 1)
       ∧ missing_found (Stats 3 2 1 1) ≠ 0
       ∧ (q * (Z.of_nat (missing_found (Stats 3 2 1 1)) # 1)
          == (100 * Z.of_nat (updated (Stats 3 2 1 1))) # 1)%Q)
  ∧ (missing_found (Stats 3 2 1 1) = 0 →
     ∀ q, MsgSuccessRate q ∉ (main elements all_encode example_files).2).
Proof.
  apply (success_rate_reported elements all_encode example_files (Stats 3 2 1 1)).
  vm_compute. reflexivity.
Defined.

Example success_rate_example : (success_rate (Stats 3 2 1 1) == 50 # 1)%Q.
Proof. reflexivity. Qed.

(** C4 as the specification words it does not hold: on a catalog with one
    eligible record that matches nothing, [missing_found] is 1 and no
    success rate is printed. *)
Lemma success_rate_omitted_though_eligible :
  ¬ (∀ (fs : files) (st : stats),
       outcome (update_blocks_json elements all_encode fs) = inr st →
       missing_found st ≠ 0 →
       ∃ q, MsgSuccessRate q ∈ (main elements all_encode fs).2).
Proof.
  intros H.
  destruct (H unmatched_files (Stats 1 1 0 1)) as [q Hq].
  - vm_compute. reflexivity.
  - simpl. lia.
  - apply (rate_in_main elements all_encode unmatched_files (Stats 1 1 0 1)) in Hq as [Hu _].
    + simpl in Hu. lia.
    + vm_compute. reflexivity.
Qed.

Example main_unmatched_output :
  main elements all_encode unmatched_files
  = (unmatched_files,
     banner
     ++ [ MsgLoadedTextures 1; MsgLoadedBlocks 1; MsgNoMatch "zzz" ]
     ++ [ MsgRule; MsgCompleted; MsgTotal 1; MsgMissingFound 1; MsgUpdatedCount 0;
          MsgStillMissing 1 ]).
Proof. vm_compute. reflexivity. Qed.

(** ** Two runs that iterate the candidate set in different orders

    The four strict tiers only test membership, so they do not see the
    iteration order; the fuzzy tier sees it when two qualifying candidates
    of least length tie.  A second run that iterates in another order
    still changes nothing, as long as no candidate is named like the
    sentinel. *)

Section TwoOrders.

Lemma mem_perm v (l1 l2 : list string) : l1 ≡ₚ l2 → mem v l1 = mem v l2.
Proof. intros Hp. unfold mem. apply bool_decide_ext. by rewrite Hp. Qed.

Lemma first_present_perm forms (l1 l2 : list string) :
  l1 ≡ₚ l2 → first_present forms l1 = first_present forms l2.
Proof.
  intros Hp. unfold first_present.
  induction forms as [|f forms IH]; simpl; [done|].
  by rewrite (mem_perm f l1 l2 Hp), IH.
Qed.

Lemma polished_tier_perm block_name (l1 l2 : list string) :
  l1 ≡ₚ l2 → polished_tier block_name l1 = polished_tier block_name l2.
Proof.
  intros Hp. unfold polished_tier.
  destruct (str_contains _ _); [|done]. by apply first_present_perm.
Qed.

Lemma combo_tier_perm block_name (l1 l2 : list string) :
  l1 ≡ₚ l2 → combo_tier block_name l1 = combo_tier block_name l2.
Proof.
  intros Hp. unfold combo_tier.
  destruct (1 <? _); [|done]. by apply first_present_perm.
Qed.

Lemma fuzzy_tier_None block_name (l : list string) :
  fuzzy_tier block_name l = None ↔
  ∀ texture, texture ∈ l →
    fuzzy_qualifies block_name (normalize_name block_name) texture = false.
Proof.
  unfold fuzzy_tier, best_matches. split.
  - intros Hnone texture Hin.
    destruct (fuzzy_qualifies _ _ texture) eqn:Hq; [|done].
    assert (In texture (List.filter
              (fuzzy_qualifies block_name (normalize_name block_name)) l)) as Hf.
    { apply filter_In. split; [by apply list_elem_of_In | done]. }
    by destruct (List.filter _ l).
  - intros Hall.
    destruct (List.filter _ l) as [|m ms] eqn:Hf; [done|].
    assert (In m (List.filter
              (fuzzy_qualifies block_name (normalize_name block_name)) l)) as Hm.
    { rewrite Hf. by left. }
    apply filter_In in Hm as [Hin Hq].
    apply list_elem_of_In in Hin. by rewrite (Hall m Hin) in Hq.
Qed.

Lemma fuzzy_tier_None_perm block_name (l1 l2 : list string) :
  l1 ≡ₚ l2 → fuzzy_tier block_name l1 = None → fuzzy_tier block_name l2 = None.
Proof.
  intros Hp. rewrite !fuzzy_tier_None. intros Hall texture Hin.
  apply Hall. by rewrite Hp.
Qed.

(** When the sentinel is not a candidate, "no match" does not depend on
    the iteration order. *)
Lemma find_matching_texture_missing_perm block_name (l1 l2 : list string) :
  l1 ≡ₚ l2 →
  "missing_texture.png" ∉ l1 →
  find_matching_texture block_name l1 = "missing_texture.png" →
  find_matching_texture block_name l2 = "missing_texture.png".
Proof.
  intros Hp Hnot. unfold find_matching_texture.
  rewrite <- (mem_perm _ l1 l2 Hp), <- (first_present_perm _ l1 l2 Hp),
    <- (polished_tier_perm _ l1 l2 Hp), <- (combo_tier_perm _ l1 l2 Hp).
  destruct (mem _ l1) eqn:Hexact.
  { intros Heq. rewrite Heq in Hexact. by apply mem_true in Hexact. }
  destruct (first_present _ l1) as [v|] eqn:Hvar.
  { intros ->. by apply first_present_Some in Hvar as [_ ?]. }
  destruct (polished_tier _ l1) as [v|] eqn:Hpol.
  { intros ->. by apply polished_tier_Some in Hpol. }
  destruct (combo_tier _ l1) as [v|] eqn:Hcombo.
  { intros ->. by apply combo_tier_Some in Hcombo as [? _]. }
  destruct (fuzzy_tier _ l1) as [v|] eqn:Hfuzzy.
  { intros ->. by apply fuzzy_tier_Some in Hfuzzy. }
  intros _. by rewrite (fuzzy_tier_None_perm _ l1 l2 Hp Hfuzzy).
Qed.

End TwoOrders.

Section SecondRun.

Variables order1 order2 : gset string → list string.
Variable encodes : ascii → bool.

Lemma turn_rerun (l1 l2 : list string) block k block' :
  reruns_agree l1 l2 →
  turn l1 block k block' →
  ∃ k', turn l2 block' k' block' ∧ k' ≠ Rewritten.
Proof.
  intros Hagree [fields Hurl|fields name Hurl Hname Hm|fields name Hurl Hname Hm].
  - exists Skipped. split; [by constructor | done].
  - exists Skipped. split; [|done]. constructor. by apply url_is_missing_rewritten.
  - exists StillMissing. split; [|done]. eapply turn_still_missing; [done..|].
    destruct Hagree as [<-|[Hp Hnot]]; [done|].
    by apply (find_matching_texture_missing_perm name l1 l2).
Qed.

Lemma pass_rerun (l1 l2 : list string) blocks ks blocks' :
  reruns_agree l1 l2 →
  pass l1 blocks ks blocks' →
  ∃ ks', pass l2 blocks' ks' blocks' ∧ Forall (fun k => k ≠ Rewritten) ks'.
Proof.
  intros Hagree.
  induction 1 as [|block k block' blocks ks blocks' Hturn _ (ks' & IH & Hks')].
  - exists []. split; constructor.
  - destruct (turn_rerun l1 l2 _ _ _ Hagree Hturn) as (k' & Hk' & Hne).
    exists (k' :: ks'). split; by constructor.
Qed.

Lemma data_pass_rerun (l1 l2 : list string) data st data' :
  reruns_agree l1 l2 →
  data_pass l1 data st data' →
  ∃ st', data_pass l2 data' st' data'.
Proof.
  intros Hagree [blocks ks blocks' Hp| |].
  - destruct (pass_rerun l1 l2 _ _ _ Hagree Hp) as (ks' & Hp' & _).
    eexists. by constructor.
  - eexists. constructor.
  - eexists. constructor.
Qed.

(** Whether the loop returns depends on the shape of the records only, not
    on the candidates. *)
Lemma data_pass_any_candidates (l1 l2 : list string) data st data' :
  data_pass l1 data st data' → ∃ st2 data2, data_pass l2 data st2 data2.
Proof.
  intros [blocks ks blocks' Hp| |].
  - apply pass_records_ok in Hp.
    destruct (records_ok_pass l2 blocks Hp) as (ks2 & blocks2 & Hp2).
    eexists _, _. by constructor.
  - eexists _, _. constructor.
  - eexists _, _. constructor.
Qed.

Lemma bumps_no_rewrite (ks : list turn_kind) (st : stats) :
  Forall (fun k => k ≠ Rewritten) ks → updated (bumps st ks) = updated st.
Proof.
  intros Hks. revert st. unfold bumps.
  induction Hks as [|k ks Hk _ IH]; intros st; [done|].
  simpl. rewrite IH. by destruct k.
Qed.

(** The files after a second run are the files after the first run. *)
Lemma second_run_files (fs : files) :
  (∀ lines, files_txt fs = Some lines →
            reruns_agree (order1 (texture_set lines)) (order2 (texture_set lines))) →
  final_files (update_blocks_json order2 encodes
                 (final_files (update_blocks_json order1 encodes fs)))
  = final_files (update_blocks_json order1 encodes fs).
Proof.
  intros Hagree.
  destruct (update_blocks_json_cases order1 encodes fs)
    as [e He Hne Hfs|st lines data data' Hst Hl Hb Hp Henc Hfs
       |st lines data data' Hcut Hl Hb Hp Henc Hfs]; rewrite Hfs.
  - destruct (update_blocks_json_cases order2 encodes fs)
      as [e2 _ _ Hfs2|st2 lines data data' _ Hl Hb Hp2 _ _
         |st2 lines data data' _ Hl Hb Hp2 _ _]; [done|exfalso..].
    + destruct (data_pass_any_candidates _ (order1 (texture_set lines)) _ _ _ Hp2)
        as (st1 & data1 & Hp1).
      pose proof (data_pass_run order1 encodes fs lines data st1 data1 Hl Hb Hp1) as Hrun.
      destruct (encodable encodes data1); destruct Hrun as [Ho _];
        rewrite Ho in He; [done|]. by injection He as <-.
    + destruct (data_pass_any_candidates _ (order1 (texture_set lines)) _ _ _ Hp2)
        as (st1 & data1 & Hp1).
      pose proof (data_pass_run order1 encodes fs lines data st1 data1 Hl Hb Hp1) as Hrun.
      destruct (encodable encodes data1); destruct Hrun as [Ho _];
        rewrite Ho in He; [done|]. by injection He as <-.
  - destruct (data_pass_rerun _ _ _ _ _ (Hagree lines Hl) Hp) as [st' Hp'].
    pose proof (data_pass_run order2 encodes
                  (Files (Some lines) (Some (Encodes data'))) lines data' st' data'
                  eq_refl eq_refl Hp') as Hrun.
    rewrite Henc in Hrun. by destruct Hrun.
  - by rewrite (update_blocks_json_malformed order2 encodes _ lines).
Qed.

(** The counters of a second run after a first run that returned. *)
Lemma second_run_stats (fs : files) (st : stats) :
  (∀ lines, files_txt fs = Some lines →
            reruns_agree (order1 (texture_set lines)) (order2 (texture_set lines))) →
  outcome (update_blocks_json order1 encodes fs) = inr st →
  outcome (update_blocks_json order2 encodes
             (final_files (update_blocks_json order1 encodes fs)))
  = inr (Stats (total_processed st) (still_missing st) 0 (still_missing st)).
Proof.
  intros Hagree Hrun.
  destruct (update_blocks_json_inr_encodable order1 encodes fs st Hrun)
    as (lines & data & data' & Hl & Hb & Hpass & Henc & Hfs).
  rewrite Hfs. specialize (Hagree lines Hl).
  destruct Hpass as [blocks ks blocks' Hp| |].
  - destruct (pass_rerun _ _ _ _ _ Hagree Hp) as (ks' & Hp' & Hks').
    destruct (update_blocks_json_pass order2 encodes
                (Files (Some lines) (Some (Encodes (JArr blocks')))) lines blocks' ks'
                blocks' eq_refl eq_refl Hp' Henc) as [Hout _].
    rewrite Hout. f_equal.
    pose proof (bumps_no_rewrite ks' (Stats 0 0 0 0) Hks') as Hzero.
    destruct (pass_counters _ _ _ _ Hp (Stats 0 0 0 0)) as (Ht & _ & _).
    destruct (pass_counters _ _ _ _ Hp' (Stats 0 0 0 0)) as (Ht' & Hm' & Hu').
    pose proof (pass_still_missing _ _ _ _ Hp (Stats 0 0 0 0)) as Hs.
    apply pass_length in Hp as [_ Hlen].
    destruct (bumps (Stats 0 0 0 0) ks') as [t m u s'] eqn:Hst.
    simpl in *. f_equal; lia.
  - pose proof (data_pass_run order2 encodes
                  (Files (Some lines) (Some (Encodes (JObj [])))) lines (JObj [])
                  (Stats 0 0 0 0) (JObj []) eq_refl eq_refl
                  (data_pass_empty_dict _)) as Hr.
    simpl in Hr. by destruct Hr.
  - pose proof (data_pass_run order2 encodes
                  (Files (Some lines) (Some (Encodes (JStr "")))) lines (JStr "")
                  (Stats 0 0 0 0) (JStr "") eq_refl eq_refl
                  (data_pass_empty_str _)) as Hr.
    simpl in Hr. by destruct Hr.
Qed.

(** C7, as the code has it: the files after a second run of [main] are the
    files after the first run, for every state of the two files, provided
    the second run iterates the candidate set in the order of the first
    run, or the two orders list the same candidates and none of them is
    named like the sentinel.  Records rewritten by the first run no longer
    have the sentinel [url], and the records left unmatched match nothing
    again. *)
Theorem main_idempotent (fs : files) :
  (∀ lines, files_txt fs = Some lines →
     order1 (texture_set lines) = order2 (texture_set lines)
     ∨ (order1 (texture_set lines) ≡ₚ order2 (texture_set lines)
        ∧ "missing_texture.png" ∉ order1 (texture_set lines))) →
  (main order2 encodes (main order1 encodes fs).1).1 = (main order1 encodes fs).1.
Proof.
  intros Hagree. rewrite !main_files. by apply second_run_files.
Qed.

End SecondRun.

Section OtherOrder.

Variables order1 order2 : gset string → list string.
Variable encodes : ascii → bool.
Hypothesis same_elements : ∀ s, order1 s ≡ₚ order2 s.

(** X28: a second run that iterates the candidate set in another order
    still leaves the files as the first run left them, provided no
    candidate of the listing is named like the sentinel. *)
Theorem second_run_other_order_changes_nothing (fs : files) :
  (∀ lines, files_txt fs = Some lines →
            "missing_texture.png" ∉ order1 (texture_set lines)) →
  (main order2 encodes (main order1 encodes fs).1).1 = (main order1 encodes fs).1.
Proof.
  intros Hnot. rewrite !main_files. apply second_run_files.
  intros lines Hl. right. split; [apply same_elements | by apply Hnot].
Qed.

End OtherOrder.

Lemma main_idempotent_witness :
  (main (fun s => reverse (elements s)) all_encode
        (main elements all_encode example_files).1).1
  = (main elements all_encode example_files).1.
Proof.
  apply (main_idempotent elements (fun s => reverse (elements s)) all_encode).
  intros lines [= <-]. right. split.
  - symmetry. apply reverse_Permutation.
  - apply mem_false. vm_compute. reflexivity.
Defined.

(** C7 as the specification words it does not hold: two runs are two
    processes, each of which iterates the candidate set in an order of its
    own.  On a listing with [missing_texture.png] and [texture_missing.png]
    the block [texture] ties in the fuzzy tier: a first run that meets
    [missing_texture.png] first leaves the record unmatched, and a second
    run that meets it last rewrites the record. *)
Lemma main_not_idempotent_across_orders :
  ¬ (∀ (order1 order2 : gset string → list string) (fs : files),
       (∀ s, order1 s ≡ₚ elements s) →
       (∀ s, order2 s ≡ₚ elements s) →
       (main order2 all_encode (main order1 all_encode fs).1).1
       = (main order1 all_encode fs).1).
Proof.
  intros H.
  specialize (H elements (fun s => reverse (elements s)) tie_files).
  assert ((main (fun s => reverse (elements s)) all_encode
                (main elements all_encode tie_files).1).1
          = (main elements all_encode tie_files).1) as Hbad.
  { apply H; intros s; [done | apply reverse_Permutation]. }
  vm_compute in Hbad. discriminate Hbad.
Qed.

(** With a candidate named like the sentinel, and a tie in the fuzzy tier,
    the order shows: iterating [missing_texture.png] first leaves the record
    unmatched, iterating it last rewrites the record. *)
Example tie_depends_on_order :
  (main elements all_encode tie_files).1 = tie_files
  ∧ (main (fun s => reverse (elements s)) all_encode tie_files).1
    = Files (Some ["missing_texture.png"; "texture_missing.png"])
        (Some (Encodes (JArr [JObj [("name", JStr "texture");
                                    ("url", JStr "blocks/texture_missing.png")]]))).
Proof. split; vm_compute; reflexivity. Qed.

(** * Further properties of the code *)

(** ** The string operations *)

Section StringFacts.

Lemma lower_ascii_idempotent (c : ascii) :
  lower_ascii (lower_ascii c) = lower_ascii c.
Proof.
  destruct c as [[] [] [] [] [] [] [] []]; reflexivity.
Qed.

Lemma str_lower_idempotent (s : string) : str_lower (str_lower s) = str_lower s.
Proof.
  induction s as [|c s IH]; [done|]. simpl.
  by rewrite lower_ascii_idempotent, IH.
Qed.

Lemma str_split_nonempty (sep : ascii) (s : string) : str_split sep s ≠ [].
Proof.
  destruct s as [|c s]; [done|]. simpl.
  destruct (Ascii.eqb c sep); [done|]. by destruct (str_split sep s).
Qed.

Lemma str_join_cons (sep p : string) (ps : list string) :
  ps ≠ [] → str_join sep (p :: ps) = p +:+ sep +:+ str_join sep ps.
Proof. by destruct ps. Qed.

Lemma str_contains_false_prefix (old : string) (c : ascii) (s : string) :
  str_contains old (String c s) = false →
  String.prefix old (String c s) = false ∧ str_contains old s = false.
Proof. simpl. by intros [? ?]%orb_false_iff. Qed.

Lemma str_forall_replace_char (p : ascii → bool) (d : ascii) (s : string) :
  str_forall p s = true →
  str_forall p (str_replace (String d EmptyString) "" s) = true.
Proof.
  induction s as [|c s IH]; [done|].
  rewrite str_replace_char_cons. simpl. intros [Hc Hs]%andb_true_iff.
  destruct (Ascii.eqb d c); [by apply IH|]. simpl. by rewrite Hc, IH.
Qed.

Lemma str_forall_lower (s : string) :
  str_forall (fun c => Ascii.eqb (lower_ascii c) c) (str_lower s) = true.
Proof.
  induction s as [|c s IH]; [done|]. simpl.
  by rewrite lower_ascii_idempotent, Ascii.eqb_refl, IH.
Qed.

Lemma str_lower_fixed (s : string) :
  str_forall (fun c => Ascii.eqb (lower_ascii c) c) s = true → str_lower s = s.
Proof.
  induction s as [|c s IH]; [done|]. simpl.
  intros [Hc%Ascii.eqb_eq Hs]%andb_true_iff. by rewrite Hc, IH.
Qed.

Lemma str_replace_absent (old new s : string) :
  str_contains old s = false → str_replace old new s = s.
Proof.
  unfold str_replace. induction s as [|c s IH]; [done|].
  intros [Hp Hs]%str_contains_false_prefix.
  cbn [str_replace_from]. rewrite Hp. by rewrite IH.
Qed.

Lemma substring_whole (s : string) : String.substring 0 (String.length s) s = s.
Proof. induction s as [|c s IH]; simpl; [done | by rewrite IH]. Qed.

Lemma substring_split (s : string) (m : nat) :
  m ≤ String.length s →
  s = String.substring 0 m s +:+ String.substring m (String.length s - m) s.
Proof.
  revert m. induction s as [|c s IH]; intros m Hm.
  - simpl in Hm. assert (m = 0) as -> by lia. done.
  - destruct m as [|m].
    + rewrite Nat.sub_0_r, substring_whole. done.
    + simpl.
      change (String c s
              = String c (substring 0 m s +:+ substring m (String.length s - m) s)).
      f_equal. apply (IH m). simpl in Hm. lia.
Qed.

Lemma substring_app_suffix (p suffix : string) :
  String.substring (String.length p) (String.length suffix) (p +:+ suffix) = suffix.
Proof.
  induction p as [|c p IH]; simpl; [|done].
  induction suffix as [|d suffix IH]; [done|]. simpl. by f_equal.
Qed.

Lemma string_length_app (a b : string) :
  String.length (a +:+ b) = String.length a + String.length b.
Proof. induction a as [|c a IH]; simpl; [done | by rewrite IH]. Qed.

End StringFacts.

(** X1: joining the parts of [s.split(sep)] with the separator gives [s]
    back; the number of parts is one more than the number of separators in
    [s], and no part contains the separator. *)
Theorem str_split_join_round_trip (sep : ascii) (s : string) :
  str_join (String sep EmptyString) (str_split sep s) = s
  ∧ length (str_split sep s) = S (str_count sep s)
  ∧ Forall (fun part => str_contains (String sep EmptyString) part = false)
           (str_split sep s).
Proof.
  induction s as [|c s (IHj & IHl & IHf)]; [by repeat constructor|].
  pose proof (str_split_nonempty sep s) as Hne.
  simpl. destruct (Ascii.eqb c sep) eqn:Hc.
  - apply Ascii.eqb_eq in Hc as ->. repeat split.
    + rewrite str_join_cons by done. simpl. by rewrite IHj.
    + simpl. by rewrite IHl.
    + by constructor.
  - destruct (str_split sep s) as [|p ps]; [done|]. repeat split.
    + destruct ps as [|q ps]; simpl in *; by rewrite <- IHj.
    + simpl in *. lia.
    + inversion IHf as [|? ? Hp Hps]; subst. constructor; [|done].
      rewrite str_contains_char_cons, Ascii.eqb_sym, Hc. done.
Qed.

(** X2: [s.replace(old, new)] returns [s] itself when [old] does not occur in
    [s]. *)
Theorem str_replace_without_occurrence (old new s : string) :
  str_contains old s = false → str_replace old new s = s.
Proof. apply str_replace_absent. Qed.

Lemma str_replace_without_occurrence_witness :
  str_replace "polished_" "" "granite_polished" = "granite_polished".
Proof. apply str_replace_without_occurrence. reflexivity. Defined.

Lemma str_endswith_suffix (suffix s : string) :
  str_endswith suffix s = true ↔ ∃ p, s = p +:+ suffix.
Proof.
  unfold str_endswith. split.
  - intros [Hk Heq]%andb_true_iff. apply Nat.leb_le in Hk.
    apply String.eqb_eq in Heq.
    remember (String.length suffix) as k eqn:Ek.
    exists (String.substring 0 (String.length s - k) s).
    rewrite <- Heq.
    pose proof (substring_split s (String.length s - k)) as Hsplit.
    replace (String.length s - (String.length s - k)) with k in Hsplit by lia.
    apply Hsplit. lia.
  - intros [p ->]. rewrite string_length_app.
    apply andb_true_iff. split; [apply Nat.leb_le; lia|].
    replace (String.length p + String.length suffix - String.length suffix)
      with (String.length p) by lia.
    rewrite substring_app_suffix. apply String.eqb_refl.
Qed.

(** X3: [s.endswith(suffix)] holds exactly when [s] is some string followed
    by [suffix]. *)
Theorem str_endswith_iff (suffix s : string) :
  str_endswith suffix s = true ↔ ∃ p, s = p +:+ suffix.
Proof. apply str_endswith_suffix. Qed.

Section StripFacts.

Lemma str_lstrip_split (s : string) :
  ∃ pre, s = pre +:+ str_lstrip s ∧ str_forall is_space pre = true.
Proof.
  induction s as [|c s (pre & IH & Hpre)]; [by exists ""|]. simpl.
  destruct (is_space c) eqn:Hc; [|by exists ""].
  exists (String c pre). split; [|by simpl; rewrite Hc].
  change (String c s = String c (pre +:+ str_lstrip s)). by f_equal.
Qed.

Lemma str_lstrip_first (s : string) : str_first_is is_space (str_lstrip s) = false.
Proof.
  induction s as [|c s IH]; [done|]. simpl.
  by destruct (is_space c) eqn:Hc.
Qed.

Lemma str_rstrip_split (s : string) :
  ∃ post, s = str_rstrip s +:+ post ∧ str_forall is_space post = true.
Proof.
  induction s as [|c s (post & IH & Hpost)]; [by exists ""|]. simpl.
  destruct (str_rstrip s) as [|d r] eqn:Hr.
  - change (s = post) in IH. subst post. destruct (is_space c) eqn:Hc.
    + exists (String c s). split; [done|]. simpl. by rewrite Hc.
    + exists s. done.
  - exists post. split; [|done].
    change (String c s = String c (String d r +:+ post)). by f_equal.
Qed.

Lemma str_rstrip_last (s : string) : str_last_is is_space (str_rstrip s) = false.
Proof.
  induction s as [|c s IH]; [done|]. simpl.
  destruct (str_rstrip s) as [|d r] eqn:Hr.
  - by destruct (is_space c) eqn:Hc.
  - done.
Qed.

Lemma str_rstrip_first (s : string) :
  str_first_is is_space s = false → str_first_is is_space (str_rstrip s) = false.
Proof.
  destruct s as [|c s]; [done|]. simpl. intros Hc.
  destruct (str_rstrip s); [by rewrite Hc | done].
Qed.

Lemma str_lstrip_fixed (s : string) :
  str_first_is is_space s = false → str_lstrip s = s.
Proof. destruct s as [|c s]; [done|]. simpl. by intros ->. Qed.

Lemma str_rstrip_fixed (s : string) :
  str_last_is is_space s = false → str_rstrip s = s.
Proof.
  induction s as [|c s IH]; [done|].
  destruct s as [|d s].
  - simpl. by intros ->.
  - intros Hl. change (str_last_is is_space (String d s) = false) in Hl.
    change (match str_rstrip (String d s) with
            | EmptyString => if is_space c then EmptyString else String c EmptyString
            | r => String c r
            end = String c (String d s)).
    by rewrite (IH Hl).
Qed.

End StripFacts.

(** X4: [s.strip()] removes white space at both ends and nothing else: [s]
    is white space, then the result, then white space; the result neither
    starts nor ends with white space; stripping it again changes nothing. *)
Theorem str_strip_spec (s : string) :
  (∃ pre post,
     s = pre +:+ str_strip s +:+ post
     ∧ str_forall is_space pre = true
     ∧ str_forall is_space post = true)
  ∧ str_first_is is_space (str_strip s) = false
  ∧ str_last_is is_space (str_strip s) = false
  ∧ str_strip (str_strip s) = str_strip s.
Proof.
  unfold str_strip.
  pose proof (str_rstrip_first _ (str_lstrip_first s)) as Hfirst.
  pose proof (str_rstrip_last (str_lstrip s)) as Hlast.
  repeat split; [|done..|].
  - destruct (str_lstrip_split s) as (pre & Hs & Hpre).
    destruct (str_rstrip_split (str_lstrip s)) as (post & Hl & Hpost).
    exists pre, post. split; [|done]. by rewrite <- Hl.
  - by rewrite (str_lstrip_fixed _ Hfirst), (str_rstrip_fixed _ Hlast).
Qed.

(** X5: the key that [normalize_name] returns has no underscore, hyphen or
    space and is in lower case; normalizing it again returns it unchanged,
    and the case of the name does not matter. *)
Theorem normalize_name_canonical (name : string) :
  str_contains "_" (normalize_name name) = false
  ∧ str_contains "-" (normalize_name name) = false
  ∧ str_contains " " (normalize_name name) = false
  ∧ str_lower (normalize_name name) = normalize_name name
  ∧ normalize_name (normalize_name name) = normalize_name name
  ∧ normalize_name (str_lower name) = normalize_name name.
Proof.
  assert (str_contains "_" (normalize_name name) = false) as H1
    by apply normalize_name_no_underscore.
  assert (str_contains "-" (normalize_name name) = false) as H2.
  { unfold normalize_name. apply str_replace_char_keeps_absent, str_replace_char_gone. }
  assert (str_contains " " (normalize_name name) = false) as H3.
  { unfold normalize_name. apply str_replace_char_gone. }
  assert (str_lower (normalize_name name) = normalize_name name) as H4.
  { apply str_lower_fixed. unfold normalize_name.
    do 3 apply str_forall_replace_char. apply str_forall_lower. }
  repeat split; try done.
  - unfold normalize_name at 1. rewrite H4.
    by rewrite (str_replace_absent _ _ _ H1), (str_replace_absent _ _ _ H2),
      (str_replace_absent _ _ _ H3).
  - unfold normalize_name. by rewrite str_lower_idempotent.
Qed.

Section MinByLen.

Lemma min_by_len_split (best : string) (l : list string) :
  ∃ pre post,
    best :: l = pre ++ min_by_len best l :: post
    ∧ (∀ x, x ∈ pre → String.length (min_by_len best l) < String.length x)
    ∧ (∀ x, x ∈ post → String.length (min_by_len best l) ≤ String.length x).
Proof.
  revert best. induction l as [|x l IH]; intros best.
  - exists [], []. repeat split; intros y Hy; by apply elem_of_nil in Hy.
  - simpl. destruct (String.length x <? String.length best) eqn:Hlt.
    + apply Nat.ltb_lt in Hlt.
      destruct (IH x) as (pre & post & Heq & Hpre & Hpost).
      exists (best :: pre), post. split; [by rewrite Heq|]. split; [|done].
      intros y [->|Hy]%elem_of_cons; [|by apply Hpre].
      destruct pre as [|p pre]; simpl in Heq.
      * injection Heq as Hx _. rewrite <- Hx. done.
      * injection Heq as Hx _. subst p.
        specialize (Hpre x (list_elem_of_here _ _)). lia.
    + apply Nat.ltb_ge in Hlt.
      destruct (IH best) as (pre & post & Heq & Hpre & Hpost).
      destruct pre as [|p pre]; simpl in Heq.
      * injection Heq as Hb Hl. exists [], (x :: post).
        split; [simpl; by rewrite <- Hb, Hl|]. split.
        -- intros y Hy. by apply elem_of_nil in Hy.
        -- intros y [->|Hy]%elem_of_cons; [by rewrite <- Hb | by apply Hpost].
      * injection Heq as Hb Hl. subst p.
        exists (best :: x :: pre), post. split; [simpl; do 2 f_equal; exact Hl|].
        split; [|done].
        pose proof (Hpre best (list_elem_of_here _ _)) as Hbest.
        intros y [->|[->|Hy]%elem_of_cons]%elem_of_cons; [done|lia|].
        apply Hpre. by right.
Qed.

End MinByLen.

(** X6: [min(best_matches, key=len)] returns an element of the list that no
    element is shorter than, and the first such one: every element before
    it is strictly longer. *)
Theorem min_by_len_first_shortest (best : string) (l : list string) :
  min_by_len best l ∈ best :: l
  ∧ (∀ x, x ∈ best :: l → String.length (min_by_len best l) ≤ String.length x)
  ∧ ∃ pre post,
      best :: l = pre ++ min_by_len best l :: post
      ∧ ∀ x, x ∈ pre → String.length (min_by_len best l) < String.length x.
Proof.
  destruct (min_by_len_split best l) as (pre & post & Heq & Hpre & Hpost).
  split; [apply min_by_len_elem|]. split.
  - intros x Hx. rewrite Heq in Hx.
    apply elem_of_app in Hx as [Hx|[->|Hx]%elem_of_cons].
    + specialize (Hpre x Hx). lia.
    + done.
    + by apply Hpost.
  - by exists pre, post.
Qed.

(** ** The tiers of the matcher *)

Section TierFacts.

Implicit Types (l : list string) (v : string).

Lemma first_present_split forms pre v post l :
  forms = pre ++ v :: post →
  (∀ u, u ∈ pre → u ∉ l) →
  v ∈ l →
  first_present forms l = Some v.
Proof.
  intros -> Hpre Hv. induction pre as [|p pre IH].
  - by apply first_present_cons_hit.
  - change ((p :: pre) ++ v :: post) with (p :: (pre ++ v :: post)).
    rewrite first_present_cons_miss by (apply Hpre; left).
    apply IH. intros u Hu. apply Hpre. by right.
Qed.

Lemma mem_nil v : mem v [] = false.
Proof. apply mem_false. by intros ?%elem_of_nil. Qed.

Lemma first_present_nil forms : first_present forms [] = None.
Proof. apply first_present_None. by intros v _ ?%elem_of_nil. Qed.

Lemma str_count_contains (c : ascii) (s : string) :
  str_contains (String c EmptyString) s = negb (str_count c s =? 0).
Proof.
  induction s as [|d s IH]; [done|].
  rewrite str_contains_char_cons, IH. simpl. rewrite (Ascii.eqb_sym d c).
  by destruct (Ascii.eqb c d).
Qed.

Lemma str_split_length (sep : ascii) (s : string) :
  length (str_split sep s) = S (str_count sep s).
Proof.
  induction s as [|c s IH]; [done|]. simpl.
  destruct (Ascii.eqb c sep); simpl; [by rewrite IH|].
  pose proof (str_split_nonempty sep s).
  destruct (str_split sep s); [done|]. simpl in *. lia.
Qed.

Lemma str_split_several (sep : ascii) (s : string) :
  (1 <? length (str_split sep s)) = str_contains (String sep EmptyString) s.
Proof.
  rewrite str_split_length, str_count_contains.
  destruct (str_count sep s); done.
Qed.

Lemma combo_tier_no_underscore block_name l :
  str_contains "_" block_name = false → combo_tier block_name l = None.
Proof.
  intros H. unfold combo_tier. by rewrite str_split_several, H.
Qed.

Lemma fuzzy_qualifies_filter block_name l x :
  x ∈ best_matches block_name l ↔
  x ∈ l ∧ fuzzy_qualifies block_name (normalize_name block_name) x = true.
Proof. unfold best_matches. by rewrite !list_elem_of_In, filter_In. Qed.

Lemma list_filter_perm (p : string → bool) (l1 l2 : list string) :
  l1 ≡ₚ l2 → List.filter p l1 ≡ₚ List.filter p l2.
Proof.
  induction 1 as [|x l1 l2 _ IH|x y l|l1 l2 l3 _ IH1 _ IH2]; simpl.
  - done.
  - destruct (p x); [by constructor | done].
  - destruct (p x), (p y); try done. constructor.
  - by etrans.
Qed.

Lemma best_matches_perm block_name (l1 l2 : list string) :
  l1 ≡ₚ l2 → best_matches block_name l1 ≡ₚ best_matches block_name l2.
Proof. apply list_filter_perm. Qed.

Lemma fuzzy_tier_Some_min block_name l t :
  fuzzy_tier block_name l = Some t →
  t ∈ best_matches block_name l
  ∧ ∀ x, x ∈ best_matches block_name l → String.length t ≤ String.length x.
Proof.
  unfold fuzzy_tier.
  destruct (best_matches block_name l) as [|m ms] eqn:Hb; [done|].
  intros [= <-]. destruct (min_by_len_split m ms) as (pre & post & Heq & Hpre & Hpost).
  split; [apply min_by_len_elem|].
  intros x Hx. rewrite Heq in Hx.
  apply elem_of_app in Hx as [Hx|[->|Hx]%elem_of_cons].
  - specialize (Hpre x Hx). lia.
  - done.
  - by apply Hpost.
Qed.

Lemma fuzzy_tier_perm_length block_name (l1 l2 : list string) t1 t2 :
  l1 ≡ₚ l2 →
  fuzzy_tier block_name l1 = Some t1 →
  fuzzy_tier block_name l2 = Some t2 →
  String.length t1 = String.length t2.
Proof.
  intros Hp H1 H2.
  apply fuzzy_tier_Some_min in H1 as [Hin1 Hmin1].
  apply fuzzy_tier_Some_min in H2 as [Hin2 Hmin2].
  pose proof (best_matches_perm block_name l1 l2 Hp) as Hb.
  assert (String.length t1 ≤ String.length t2) by (apply Hmin1; by rewrite Hb).
  assert (String.length t2 ≤ String.length t1) by (apply Hmin2; by rewrite <- Hb).
  lia.
Qed.

Lemma matcher_result_cases block_name l :
  find_matching_texture block_name l ∈ l
  ∨ find_matching_texture block_name l = "missing_texture.png".
Proof.
  unfold find_matching_texture.
  destruct (mem _ l) eqn:Hexact; [left; by apply mem_true|].
  destruct (first_present _ l) as [v|] eqn:Hvar.
  { left. by apply first_present_Some in Hvar as [_ ?]. }
  destruct (polished_tier _ l) as [v|] eqn:Hpol.
  { left. by apply polished_tier_Some in Hpol. }
  destruct (combo_tier _ l) as [v|] eqn:Hcombo.
  { left. by apply combo_tier_Some in Hcombo as [? _]. }
  destruct (fuzzy_tier _ l) as [v|] eqn:Hfuzzy.
  { left. by apply fuzzy_tier_Some in Hfuzzy. }
  by right.
Qed.

End TierFacts.

(** X7: the matcher ignores the case of the block name. *)
Theorem find_matching_texture_case_insensitive
    (block_name : string) (available_textures : list string) :
  find_matching_texture (str_lower block_name) available_textures
  = find_matching_texture block_name available_textures.
Proof. unfold find_matching_texture. by rewrite str_lower_idempotent. Qed.

(** X8: when the exact file name is not a candidate, the prefixed tier
    returns the first form of its list that is a candidate: [stone_] before
    [planks_] before [log_] and so on, whatever else the set holds. *)
Theorem find_matching_texture_prefixed_order
    (block_name name v : string) (pre post available_textures : list string) :
  name = str_lower block_name →
  name +:+ ".png" ∉ available_textures →
  variations name = pre ++ v :: post →
  (∀ u, u ∈ pre → u ∉ available_textures) →
  v ∈ available_textures →
  find_matching_texture block_name available_textures = v.
Proof.
  intros -> Hexact Hsplit Hpre Hv. unfold find_matching_texture.
  apply mem_false in Hexact. rewrite Hexact.
  by rewrite (first_present_split _ pre v post _ Hsplit Hpre Hv).
Qed.

Lemma find_matching_texture_prefixed_order_witness :
  find_matching_texture "Andesite"
    ["log_andesite.png"; "andesite_smooth.png"; "planks_andesite.png"]
  = "planks_andesite.png".
Proof.
  apply (find_matching_texture_prefixed_order "Andesite" "andesite"
           "planks_andesite.png" ["stone_andesite.png"]
           [ "log_andesite.png"; "leaves_andesite.png"; "wool_colored_andesite.png";
             "glass_andesite.png"; "concrete_andesite.png";
             "hardened_clay_stained_andesite.png"; "glazed_terracotta_andesite.png" ]).
  - reflexivity.
  - apply mem_false. reflexivity.
  - reflexivity.
  - intros u ->%list_elem_of_singleton. apply mem_false. reflexivity.
  - apply mem_true. reflexivity.
Defined.

(** X9: the joined ranges that the sub-phrase tier tries are exactly the
    joins of the non-empty contiguous ranges of parts, and for [n] parts
    there are [n * (n + 1) / 2] of them. *)
Theorem part_combos_ranges (name_parts : list string) :
  (∀ part_combo,
     part_combo ∈ part_combos name_parts ↔
     ∃ i j, i < j ∧ j ≤ length name_parts
            ∧ part_combo = str_join "_" (take (j - i) (drop i name_parts)))
  ∧ 2 * length (part_combos name_parts)
    = length name_parts * (length name_parts + 1).
Proof.
  split.
  - intros x. unfold part_combos. split.
    + intros (i & (j & Hx & Hj)%list_elem_of_bind & Hi)%list_elem_of_bind.
      apply list_elem_of_singleton in Hx. apply elem_of_seq in Hi, Hj.
      exists i, j. repeat split; [lia..|done].
    + intros (i & j & Hij & Hj & ->).
      apply list_elem_of_bind. exists i. split; [|apply elem_of_seq; lia].
      apply list_elem_of_bind. exists j. split; [by left|apply elem_of_seq; lia].
  - unfold part_combos. generalize (length name_parts) as n. intros n.
    assert (∀ (h : nat → string) l, length (l ≫= fun j => [h j]) = length l) as Hin.
    { intros h l. induction l as [|a l IH]; [done|].
      rewrite bind_cons. simpl. by rewrite IH. }
    assert (∀ m k, k + m = n →
              2 * length (seq k m ≫= fun i =>
                            seq (i + 1) (n - i) ≫= fun j =>
                              [str_join "_" (take (j - i) (drop i name_parts))])
              = m * (m + 1)) as Hout.
    { induction m as [|m IH]; intros k Hk; [done|].
      simpl seq. rewrite bind_cons, length_app, Hin, length_seq.
      specialize (IH (S k)). nia. }
    apply (Hout n 0). lia.
Qed.

(** X10: when the first three tiers miss and the name has an underscore, the
    sub-phrase tier returns the first candidate among its tests, taken in
    the order of the two loops and, for each range, bare form, then
    [stone_], then [planks_]. *)
Theorem find_matching_texture_combo_order
    (block_name name v : string) (pre post available_textures : list string) :
  name = str_lower block_name →
  name +:+ ".png" ∉ available_textures →
  (∀ u, u ∈ variations name → u ∉ available_textures) →
  polished_tier name available_textures = None →
  str_contains "_" name = true →
  part_combos (str_split "_" name) ≫= test_variations = pre ++ v :: post →
  (∀ u, u ∈ pre → u ∉ available_textures) →
  v ∈ available_textures →
  find_matching_texture block_name available_textures = v.
Proof.
  intros -> Hexact Hvar Hpol Hus Hsplit Hpre Hv. unfold find_matching_texture.
  apply mem_false in Hexact. apply first_present_None in Hvar.
  rewrite Hexact, Hvar, Hpol. unfold combo_tier.
  rewrite str_split_several, Hus.
  by rewrite (first_present_split _ pre v post _ Hsplit Hpre Hv).
Qed.

Lemma find_matching_texture_combo_order_witness :
  find_matching_texture "Dark_Oak_Door" ["stone_door.png"; "planks_oak.png"]
  = "planks_oak.png".
Proof.
  apply (find_matching_texture_combo_order "Dark_Oak_Door" "dark_oak_door"
           "planks_oak.png"
           [ "dark.png"; "stone_dark.png"; "planks_dark.png";
             "dark_oak.png"; "stone_dark_oak.png"; "planks_dark_oak.png";
             "dark_oak_door.png"; "stone_dark_oak_door.png";
             "planks_dark_oak_door.png"; "oak.png"; "stone_oak.png" ]
           [ "oak_door.png"; "stone_oak_door.png"; "planks_oak_door.png";
             "door.png"; "stone_door.png"; "planks_door.png" ]).
  - reflexivity.
  - apply mem_false. reflexivity.
  - apply first_present_None. reflexivity.
  - reflexivity.
  - reflexivity.
  - reflexivity.
  - apply first_present_None. reflexivity.
  - apply mem_true. reflexivity.
Defined.

(** X11: a block name without underscore never reaches the tests of the
    sub-phrase tier: once the first three tiers miss, the result is the
    fuzzy tier's, or the sentinel. *)
Theorem find_matching_texture_single_part
    (block_name name : string) (available_textures : list string) :
  name = str_lower block_name →
  str_contains "_" name = false →
  name +:+ ".png" ∉ available_textures →
  (∀ u, u ∈ variations name → u ∉ available_textures) →
  polished_tier name available_textures = None →
  combo_tier name available_textures = None
  ∧ find_matching_texture block_name available_textures
    = default "missing_texture.png" (fuzzy_tier name available_textures).
Proof.
  intros -> Hus Hexact Hvar Hpol.
  pose proof (combo_tier_no_underscore _ available_textures Hus) as Hcombo.
  split; [done|]. unfold find_matching_texture.
  apply mem_false in Hexact. apply first_present_None in Hvar.
  rewrite Hexact, Hvar, Hpol, Hcombo.
  by destruct (fuzzy_tier _ _).
Qed.

Lemma find_matching_texture_single_part_witness :
  combo_tier "granite" ["granite_top.png"; "granite.jpg.png"] = None
  ∧ find_matching_texture "Granite" ["granite_top.png"; "granite.jpg.png"]
    = default "missing_texture.png"
        (fuzzy_tier "granite" ["granite_top.png"; "granite.jpg.png"]).
Proof.
  apply (find_matching_texture_single_part "Granite" "granite").
  - reflexivity.
  - reflexivity.
  - apply mem_false. reflexivity.
  - apply first_present_None. reflexivity.
  - reflexivity.
Defined.

(** X12: a block name whose normalized form has at most two characters is
    never matched by the fuzzy tier: when the four strict tiers miss, the
    result is the sentinel, whatever the candidates. *)
Theorem find_matching_texture_short_name
    (block_name name : string) (available_textures : list string) :
  name = str_lower block_name →
  String.length (normalize_name name) ≤ 2 →
  name +:+ ".png" ∉ available_textures →
  (∀ u, u ∈ variations name → u ∉ available_textures) →
  polished_tier name available_textures = None →
  combo_tier name available_textures = None →
  find_matching_texture block_name available_textures = "missing_texture.png".
Proof.
  intros -> Hlen Hexact Hvar Hpol Hcombo. unfold find_matching_texture.
  apply mem_false in Hexact. apply first_present_None in Hvar.
  rewrite Hexact, Hvar, Hpol, Hcombo.
  assert (fuzzy_tier (str_lower block_name) available_textures = None) as ->; [|done].
  apply fuzzy_tier_None. intros texture _.
  rewrite fuzzy_qualifies_whole_name.
  apply andb_false_iff. left. apply Nat.ltb_ge. lia.
Qed.

Lemma find_matching_texture_short_name_witness :
  find_matching_texture "T_V" ["tv_front.png"; "old_tv.png"] = "missing_texture.png".
Proof.
  apply (find_matching_texture_short_name "T_V" "t_v").
  - reflexivity.
  - vm_compute. lia.
  - apply mem_false. reflexivity.
  - apply first_present_None. reflexivity.
  - reflexivity.
  - reflexivity.
Defined.

(** X13: when the four strict tiers miss and some candidate contains the
    whole normalized block name (of more than two characters) in its
    normalized name without [.png], the matcher returns such a candidate,
    and none of them is shorter than the one returned. *)
Theorem find_matching_texture_fuzzy_shortest
    (block_name name x : string) (available_textures : list string) :
  name = str_lower block_name →
  name +:+ ".png" ∉ available_textures →
  (∀ u, u ∈ variations name → u ∉ available_textures) →
  polished_tier name available_textures = None →
  combo_tier name available_textures = None →
  x ∈ available_textures →
  2 < String.length (normalize_name name) →
  str_contains (normalize_name name) (normalize_name (str_replace ".png" "" x)) = true →
  find_matching_texture block_name available_textures ∈ available_textures
  ∧ str_contains (normalize_name name)
      (normalize_name
         (str_replace ".png" ""
            (find_matching_texture block_name available_textures))) = true
  ∧ String.length (find_matching_texture block_name available_textures)
    ≤ String.length x.
Proof.
  intros -> Hexact Hvar Hpol Hcombo Hx Hlen Hsub. unfold find_matching_texture.
  apply mem_false in Hexact. apply first_present_None in Hvar.
  rewrite Hexact, Hvar, Hpol, Hcombo.
  assert (x ∈ best_matches (str_lower block_name) available_textures) as Hbx.
  { apply fuzzy_qualifies_filter. split; [done|].
    rewrite fuzzy_qualifies_whole_name, Hsub.
    apply andb_true_iff. split; [by apply Nat.ltb_lt | done]. }
  destruct (fuzzy_tier (str_lower block_name) available_textures) as [t|] eqn:Hf.
  - apply fuzzy_tier_Some_min in Hf as [Hin Hmin].
    apply fuzzy_qualifies_filter in Hin as [Hin Hq].
    rewrite fuzzy_qualifies_whole_name in Hq.
    apply andb_true_iff in Hq as [_ Hq]. split; [done|]. split; [done|].
    by apply Hmin.
  - exfalso. rewrite fuzzy_tier_None in Hf.
    apply fuzzy_qualifies_filter in Hbx as [_ Hq]. by rewrite (Hf x Hx) in Hq.
Qed.

Lemma find_matching_texture_fuzzy_shortest_witness :
  find_matching_texture "Oak_Log" ["big_oak_log_side.png"; "oak_log_top.png"]
    ∈ ["big_oak_log_side.png"; "oak_log_top.png"]
  ∧ str_contains (normalize_name "oak_log")
      (normalize_name
         (str_replace ".png" ""
            (find_matching_texture "Oak_Log"
               ["big_oak_log_side.png"; "oak_log_top.png"]))) = true
  ∧ String.length
      (find_matching_texture "Oak_Log" ["big_oak_log_side.png"; "oak_log_top.png"])
    ≤ String.length "big_oak_log_side.png".
Proof.
  apply (find_matching_texture_fuzzy_shortest "Oak_Log" "oak_log").
  - reflexivity.
  - apply mem_false. reflexivity.
  - apply first_present_None. reflexivity.
  - reflexivity.
  - reflexivity.
  - apply mem_true. reflexivity.
  - vm_compute. lia.
  - reflexivity.
Defined.

(** X14: when no candidate is named like the sentinel, the matcher returns
    the sentinel exactly when every tier misses: the exact name and all
    prefixed, polished and sub-phrase forms are absent, and no candidate
    qualifies in the fuzzy tier. *)
Theorem find_matching_texture_missing_iff
    (block_name : string) (available_textures : list string) :
  "missing_texture.png" ∉ available_textures →
  (find_matching_texture block_name available_textures = "missing_texture.png")
  ↔ ((str_lower block_name +:+ ".png" ∉ available_textures)
     ∧ (∀ u, u ∈ variations (str_lower block_name) → u ∉ available_textures)
     ∧ polished_tier (str_lower block_name) available_textures = None
     ∧ combo_tier (str_lower block_name) available_textures = None
     ∧ ∀ texture, texture ∈ available_textures →
         fuzzy_qualifies (str_lower block_name)
           (normalize_name (str_lower block_name)) texture = false).
Proof.
  intros Hnot. rewrite <- mem_false, <- first_present_None, <- fuzzy_tier_None.
  unfold find_matching_texture. split.
  - destruct (mem _ available_textures) eqn:Hexact.
    { intros Heq. rewrite Heq in Hexact. by apply mem_true in Hexact. }
    destruct (first_present _ available_textures) as [v|] eqn:Hvar.
    { intros ->. by apply first_present_Some in Hvar as [_ ?]. }
    destruct (polished_tier _ available_textures) as [v|] eqn:Hpol.
    { intros ->. by apply polished_tier_Some in Hpol. }
    destruct (combo_tier _ available_textures) as [v|] eqn:Hcombo.
    { intros ->. by apply combo_tier_Some in Hcombo as [? _]. }
    destruct (fuzzy_tier _ available_textures) as [v|] eqn:Hfuzzy.
    { intros ->. by apply fuzzy_tier_Some in Hfuzzy. }
    done.
  - by intros (-> & -> & -> & -> & ->).
Qed.

Lemma find_matching_texture_missing_iff_witness :
  (find_matching_texture "zzz" ["stone.png"; "oak_log.png"] = "missing_texture.png")
  ↔ ((str_lower "zzz" +:+ ".png" ∉ ["stone.png"; "oak_log.png"])
     ∧ (∀ u, u ∈ variations (str_lower "zzz") → u ∉ ["stone.png"; "oak_log.png"])
     ∧ polished_tier (str_lower "zzz") ["stone.png"; "oak_log.png"] = None
     ∧ combo_tier (str_lower "zzz") ["stone.png"; "oak_log.png"] = None
     ∧ ∀ texture, texture ∈ ["stone.png"; "oak_log.png"] →
         fuzzy_qualifies (str_lower "zzz")
           (normalize_name (str_lower "zzz")) texture = false).
Proof.
  apply (find_matching_texture_missing_iff "zzz" ["stone.png"; "oak_log.png"]).
  apply mem_false. reflexivity.
Defined.

(** X15: with no candidate at all the matcher returns the sentinel for
    every block name. *)
Theorem find_matching_texture_no_candidates (block_name : string) :
  find_matching_texture block_name [] = "missing_texture.png".
Proof.
  unfold find_matching_texture, polished_tier, combo_tier.
  rewrite mem_nil, !first_present_nil.
  destruct (str_contains _ _), (1 <? _); done.
Qed.

(** X16: the iteration order of the candidate set can only show in a tie of
    the fuzzy tier: for two orders of the same set the results have the
    same length, and they are equal unless both are fuzzy matches. *)
Theorem find_matching_texture_order
    (block_name : string) (l1 l2 : list string) :
  l1 ≡ₚ l2 →
  String.length (find_matching_texture block_name l1)
  = String.length (find_matching_texture block_name l2)
  ∧ (find_matching_texture block_name l1 ≠ find_matching_texture block_name l2 →
     fuzzy_tier (str_lower block_name) l1
     = Some (find_matching_texture block_name l1)
     ∧ fuzzy_tier (str_lower block_name) l2
       = Some (find_matching_texture block_name l2)).
Proof.
  intros Hp. unfold find_matching_texture.
  rewrite <- (mem_perm _ l1 l2 Hp), <- (first_present_perm _ l1 l2 Hp),
    <- (polished_tier_perm _ l1 l2 Hp), <- (combo_tier_perm _ l1 l2 Hp).
  destruct (mem _ l1); [done|].
  destruct (first_present _ l1); [done|].
  destruct (polished_tier _ l1); [done|].
  destruct (combo_tier _ l1); [done|].
  destruct (fuzzy_tier _ l1) as [t1|] eqn:H1.
  - destruct (fuzzy_tier _ l2) as [t2|] eqn:H2.
    + split; [by apply (fuzzy_tier_perm_length (str_lower block_name) l1 l2)|done].
    + exfalso. symmetry in Hp.
      by rewrite (fuzzy_tier_None_perm _ l2 l1 Hp H2) in H1.
  - by rewrite (fuzzy_tier_None_perm _ l1 l2 Hp H1).
Qed.

Lemma find_matching_texture_order_witness :
  String.length
    (find_matching_texture "texture" ["missing_texture.png"; "texture_missing.png"])
  = String.length
      (find_matching_texture "texture" ["texture_missing.png"; "missing_texture.png"])
  ∧ (find_matching_texture "texture" ["missing_texture.png"; "texture_missing.png"]
     ≠ find_matching_texture "texture" ["texture_missing.png"; "missing_texture.png"] →
     fuzzy_tier (str_lower "texture") ["missing_texture.png"; "texture_missing.png"]
     = Some (find_matching_texture "texture"
               ["missing_texture.png"; "texture_missing.png"])
     ∧ fuzzy_tier (str_lower "texture") ["texture_missing.png"; "missing_texture.png"]
       = Some (find_matching_texture "texture"
                 ["texture_missing.png"; "missing_texture.png"])).
Proof.
  apply (find_matching_texture_order "texture"
           ["missing_texture.png"; "texture_missing.png"]
           ["texture_missing.png"; "missing_texture.png"]).
  apply perm_swap.
Defined.

(** ** Loading the listing *)

Section Loader.

Variable set_order : gset string → list string.
Variable encodes : ascii → bool.
Hypothesis set_order_elements : ∀ s, set_order s ≡ₚ elements s.

Lemma texture_set_elem (lines : list string) (t : string) :
  t ∈ texture_set lines ↔
  ∃ line, line ∈ lines ∧ t = str_strip line ∧ str_endswith ".png" t = true.
Proof.
  unfold texture_set. rewrite elem_of_list_to_set, list_elem_of_In, filter_In.
  rewrite <- list_elem_of_In, list_elem_of_fmap. split.
  - intros [(line & -> & Hline) Hend]. by exists line.
  - intros (line & Hline & -> & Hend). split; [by exists line | done].
Qed.

Lemma set_order_elem (s : gset string) (t : string) : t ∈ set_order s ↔ t ∈ s.
Proof. by rewrite set_order_elements, elem_of_elements. Qed.

(** X17: the textures loaded from [files.txt] are the lines of the file,
    stripped of surrounding white space, that end in [.png], each once;
    blank lines and other lines are ignored. *)
Theorem load_available_textures_lines
    (fs : files) (lines available_textures : list string) :
  files_txt fs = Some lines →
  outcome (load_available_textures set_order fs) = inr available_textures →
  final_files (load_available_textures set_order fs) = fs
  ∧ NoDup available_textures
  ∧ ∀ t, t ∈ available_textures ↔
         ∃ line, line ∈ lines ∧ t = str_strip line ∧ ∃ p, t = p +:+ ".png".
Proof.
  intros Hl. unfold load_available_textures, outcome, final_files. rewrite Hl. simpl.
  intros [= <-]. split; [done|]. split.
  - rewrite set_order_elements. apply NoDup_elements.
  - intros t. rewrite set_order_elem, texture_set_elem.
    by setoid_rewrite str_endswith_suffix.
Qed.

(** X21: every [url] that a run writes in place of the sentinel is
    [blocks/] followed by a stripped line of [files.txt] that ends in
    [.png]; a record whose [url] is not such a path has the [url] item it
    had before the run. *)
Theorem update_blocks_json_urls_from_listing
    (fs : files) (lines : list string) (blocks blocks' : list json) (st : stats)
    (i : nat) (fields fields' : list (string * json)) :
  files_txt fs = Some lines →
  blocks_json fs = Some (Encodes (JArr blocks)) →
  outcome (update_blocks_json set_order encodes fs) = inr st →
  final_files (update_blocks_json set_order encodes fs)
  = Files (Some lines) (Some (Encodes (JArr blocks'))) →
  blocks !! i = Some (JObj fields) →
  blocks' !! i = Some (JObj fields') →
  dict_get "url" fields' = dict_get "url" fields
  ∨ ∃ line p,
      line ∈ lines
      ∧ str_strip line = p +:+ ".png"
      ∧ str_strip line ≠ "missing_texture.png"
      ∧ dict_get "url" fields = Some (JStr "blocks/missing_texture.png")
      ∧ dict_get "url" fields' = Some (JStr ("blocks/" +:+ str_strip line)).
Proof.
  intros Hl Hb Hrun Hfs Hi Hi'.
  apply update_blocks_json_inr in Hrun
    as (lines' & data & data' & Hl' & Hb' & Hpass & Hfs').
  rewrite Hl in Hl'. injection Hl' as <-.
  rewrite Hb in Hb'. injection Hb' as <-.
  rewrite Hfs in Hfs'. injection Hfs' as <-.
  inversion Hpass as [blocks0 ks blocks1 Hp| |]; subst.
  destruct (pass_lookup _ _ _ _ _ _ Hp Hi) as (k & block' & Hi'' & Hturn).
  rewrite Hi' in Hi''. injection Hi'' as <-.
  inversion Hturn as [f Hurl|f name Hurl Hname Hm|f name Hurl Hname Hm]; subst.
  - by left.
  - right.
    set (t := find_matching_texture name (set_order (texture_set lines))) in *.
    assert (t ∈ set_order (texture_set lines)) as Ht.
    { destruct (matcher_result_cases name
                  (set_order (texture_set lines))) as [?|?]; done. }
    apply set_order_elem, texture_set_elem in Ht as (line & Hline & Ht & Hend).
    apply str_endswith_suffix in Hend as [p Hp'].
    exists line, p. rewrite <- Ht. repeat split; try done.
    + by apply url_is_missing_Some.
    + apply dict_get_set_eq.
  - by left.
Qed.

End Loader.

Lemma load_available_textures_lines_witness :
  final_files (load_available_textures elements example_files) = example_files
  ∧ NoDup (elements (texture_set example_listing))
  ∧ ∀ t, t ∈ elements (texture_set example_listing) ↔
         ∃ line, line ∈ example_listing ∧ t = str_strip line ∧ ∃ p, t = p +:+ ".png".
Proof.
  apply (load_available_textures_lines elements (fun s => reflexivity _)
           example_files example_listing).
  - reflexivity.
  - reflexivity.
Defined.

Lemma update_blocks_json_urls_from_listing_witness :
  dict_get "url" [("name", JStr "Oak_Log"); ("id", JNum 17);
                  ("url", JStr "blocks/oak_log.png")]
  = dict_get "url" [("name", JStr "Oak_Log"); ("id", JNum 17);
                    ("url", JStr "blocks/missing_texture.png")]
  ∨ ∃ line p,
      line ∈ example_listing
      ∧ str_strip line = p +:+ ".png"
      ∧ str_strip line ≠ "missing_texture.png"
      ∧ dict_get "url" [("name", JStr "Oak_Log"); ("id", JNum 17);
                        ("url", JStr "blocks/missing_texture.png")]
        = Some (JStr "blocks/missing_texture.png")
      ∧ dict_get "url" [("name", JStr "Oak_Log"); ("id", JNum 17);
                        ("url", JStr "blocks/oak_log.png")]
        = Some (JStr ("blocks/" +:+ str_strip line)).
Proof.
  apply (update_blocks_json_urls_from_listing elements all_encode (fun s => reflexivity _)
           example_files example_listing example_blocks
           [ JObj [("name", JStr "Oak_Log"); ("id", JNum 17);
                   ("url", JStr "blocks/oak_log.png")];
             JObj [("url", JStr "blocks/missing_texture.png"); ("name", JStr "zzz")];
             JObj [("name", JStr "stone"); ("url", JStr "blocks/stone.png")] ]
           (Stats 3 2 1 1) 0).
  - reflexivity.
  - reflexivity.
  - vm_compute. reflexivity.
  - vm_compute. reflexivity.
  - reflexivity.
  - reflexivity.
Defined.

(** ** Dictionaries *)

(** X18: after [d[key] = value], [d.get(key)] is [value] and every other
    key reads as before; the number of items grows by one exactly when the
    key was absent; assigning twice keeps the last value only. *)
Theorem dict_set_get_laws
    (key : string) (value value2 : json) (d : list (string * json)) :
  dict_get key (dict_set key value d) = Some value
  ∧ (∀ key', key' ≠ key → dict_get key' (dict_set key value d) = dict_get key' d)
  ∧ length (dict_set key value d)
    = match dict_get key d with
      | Some _ => length d
      | None => S (length d)
      end
  ∧ dict_set key value2 (dict_set key value d) = dict_set key value2 d.
Proof.
  split; [apply dict_get_set_eq|]. split; [intros; by apply dict_get_set_ne|].
  induction d as [|[k v] d [IHl IHs]]; simpl.
  - rewrite String.eqb_refl. done.
  - destruct (String.eqb k key) eqn:Hk; simpl; rewrite Hk; [done|].
    rewrite IHs. split; [|done]. rewrite IHl. by destruct (dict_get key d).
Qed.

(** ** What a run prints, writes and raises *)

Section RunFacts.

Variable set_order : gset string → list string.
Variable encodes : ascii → bool.

(** X19: whatever happens, [main] leaves [files.txt] as it is, does not
    create a missing [blocks.json] and does not remove an existing one. *)
Theorem main_keeps_listing (fs : files) :
  files_txt (main set_order encodes fs).1 = files_txt fs
  ∧ (blocks_json fs = None → blocks_json (main set_order encodes fs).1 = None)
  ∧ (is_Some (blocks_json fs) → is_Some (blocks_json (main set_order encodes fs).1)).
Proof.
  rewrite main_files.
  destruct (update_blocks_json_cases set_order encodes fs)
    as [e He Hne Hfs|st lines data data' Hst Hl Hb Hp Henc Hfs
       |st lines data data' Hcut Hl Hb Hp Henc Hfs]; rewrite Hfs; simpl.
  - done.
  - rewrite Hl, Hb. repeat split; [done | by eexists].
  - rewrite Hl, Hb. repeat split; [done | by eexists].
Qed.


(** X22: after a run that returns, the records that still have the sentinel
    [url] are the ones counted in [still_missing], and the run has removed
    the sentinel from exactly [updated] records. *)
Theorem update_blocks_json_remaining
    (fs : files) (lines : list string) (blocks blocks' : list json) (st : stats) :
  blocks_json fs = Some (Encodes (JArr blocks)) →
  outcome (update_blocks_json set_order encodes fs) = inr st →
  final_files (update_blocks_json set_order encodes fs)
  = Files (Some lines) (Some (Encodes (JArr blocks'))) →
  length (List.filter eligible blocks') = still_missing st
  ∧ length (List.filter eligible blocks)
    = updated st + length (List.filter eligible blocks').
Proof.
  intros Hb Hrun Hfs.
  apply update_blocks_json_inr in Hrun
    as (lines' & data & data' & Hl & Hb' & Hpass & Hfs').
  rewrite Hb in Hb'. injection Hb' as <-.
  rewrite Hfs in Hfs'. injection Hfs' as -> <-.
  inversion Hpass as [blocks0 ks blocks1 Hp| |]; subst.
  pose proof (pass_still_missing _ _ _ _ Hp (Stats 0 0 0 0)) as Hs.
  destruct (pass_counters _ _ _ _ Hp (Stats 0 0 0 0)) as (_ & Hm & Hu).
  simpl in *. lia.
Qed.

End RunFacts.


Lemma update_blocks_json_remaining_witness :
  length (List.filter eligible
            [ JObj [("name", JStr "Oak_Log"); ("id", JNum 17);
                    ("url", JStr "blocks/oak_log.png")];
              JObj [("url", JStr "blocks/missing_texture.png"); ("name", JStr "zzz")];
              JObj [("name", JStr "stone"); ("url", JStr "blocks/stone.png")] ])
  = still_missing (Stats 3 2 1 1)
  ∧ length (List.filter eligible example_blocks)
    = updated (Stats 3 2 1 1)
      + length (List.filter eligible
                  [ JObj [("name", JStr "Oak_Log"); ("id", JNum 17);
                          ("url", JStr "blocks/oak_log.png")];
                    JObj [("url", JStr "blocks/missing_texture.png");
                          ("name", JStr "zzz")];
                    JObj [("name", JStr "stone"); ("url", JStr "blocks/stone.png")] ]).
Proof.
  apply (update_blocks_json_remaining elements all_encode example_files example_listing).
  - reflexivity.
  - vm_compute. reflexivity.
  - vm_compute. reflexivity.
Defined.

(** ** The console *)

Section Console.

Variable set_order : gset string → list string.
Variable encodes : ascii → bool.

Lemma process_block_lines available_textures st block fs fs' out st' block' :
  process_block available_textures st block fs = (fs', out, inr (st', block')) →
  updated st' = updated st + length (List.filter is_updated_line out)
  ∧ still_missing st' = still_missing st + length (List.filter is_no_match_line out).
Proof.
  unfold process_block. destruct block as [| | | | |fields]; io_unfold; try done.
  destruct (url_is_missing fields).
  - destruct (default (JStr "") (dict_get "name" fields)); try done.
    destruct (String.eqb _ _); simpl; intros [= <- <- <- <-]; simpl; lia.
  - intros [= <- <- <- <-]. simpl. lia.
Qed.

Lemma process_blocks_lines available_textures blocks st fs fs' out st' blocks' :
  process_blocks available_textures st blocks fs = (fs', out, inr (st', blocks')) →
  updated st' = updated st + length (List.filter is_updated_line out)
  ∧ still_missing st' = still_missing st + length (List.filter is_no_match_line out).
Proof.
  revert st fs fs' out st' blocks'.
  induction blocks as [|block blocks IH]; intros st fs fs' out st' blocks'; simpl.
  - io_unfold. intros [= <- <- <- <-]. simpl. lia.
  - io_unfold.
    destruct (process_block available_textures st block fs)
      as [[fs1 out1] [e|[st1 block1]]] eqn:Hb; [done|].
    apply process_block_lines in Hb as [Hu1 Hs1]. simpl.
    destruct (process_blocks available_textures st1 blocks fs1)
      as [[fs2 out2] [e|[st2 blocks2]]] eqn:Hbs; [done|].
    apply IH in Hbs as [Hu2 Hs2]. simpl.
    intros [= <- <- <- <-]. rewrite app_nil_r, !List.filter_app, !length_app. lia.
Qed.

Lemma process_blocks_progress available_textures blocks st fs :
  Forall (fun m => is_progress_line m = true)
         (printed (process_blocks available_textures st blocks fs)).
Proof.
  revert st fs. induction blocks as [|block blocks IH]; intros st fs.
  - constructor.
  - simpl. unfold printed in *. io_unfold.
    assert (Forall (fun m => is_progress_line m = true)
              (process_block available_textures st block fs).1.2) as Hb.
    { unfold process_block. io_unfold.
      destruct block as [| | | | |fields]; try by constructor.
      destruct (url_is_missing fields); [|by constructor].
      destruct (default _ _); try by constructor.
      destruct (negb _); simpl; by repeat constructor. }
    destruct (process_block available_textures st block fs)
      as [[fs1 out1] [e|r]]; simpl in *; [done|].
    specialize (IH r.1 fs1).
    destruct (process_blocks available_textures r.1 blocks fs1)
      as [[fs2 out2] [e|r']]; simpl in *; rewrite ?app_nil_r;
      by apply Forall_app.
Qed.

Lemma update_blocks_json_progress (fs : files) :
  Forall (fun m => is_progress_line m = true)
         (printed (update_blocks_json set_order encodes fs)).
Proof.
  destruct (files_txt fs) as [lines|] eqn:Hl;
    [|rewrite update_blocks_json_no_listing; [constructor | done]].
  destruct (blocks_json fs) as [[|data]|] eqn:Hb;
    [rewrite (update_blocks_json_malformed _ _ _ lines); [by repeat constructor|done..]| |
     rewrite (update_blocks_json_no_blocks _ _ _ lines); [by repeat constructor|done..]].
  destruct data as [| | |s|blocks|fields].
  1-4,6: unfold update_blocks_json, load_available_textures, load_blocks, py_len,
      process_data, save_blocks, printed; io_unfold;
      rewrite Hl, Hb; simpl; try by repeat constructor.
  - destruct s; simpl; by repeat constructor.
  - destruct fields; simpl; by repeat constructor.
  - rewrite (update_blocks_json_list _ _ _ lines blocks Hl Hb). simpl.
    pose proof (process_blocks_progress (set_order (texture_set lines)) blocks
                  (Stats 0 0 0 0) fs) as Hp.
    unfold printed in *.
    destruct (process_blocks _ _ blocks fs) as [[fs1 out1] [e'|r]]; simpl in *;
      [by repeat constructor|].
    destruct (forallb (encodable encodes) r.2); simpl; by repeat constructor.
Qed.

Lemma progress_no_error (out : list message) :
  Forall (fun m => is_progress_line m = true) out →
  List.filter is_error_line out = [] ∧ MsgCompleted ∉ out.
Proof.
  induction 1 as [|m out Hm _ [IH1 IH2]]; [split; [done | by intros ?%elem_of_nil]|].
  split.
  - simpl. by destruct m.
  - intros [Heq|Hin]%elem_of_cons; [by subst m | by apply IH2].
Qed.

(** X23: a run that returns has printed one "updated" line per record
    counted in [updated] and one "no match" line per record counted in
    [still_missing]. *)
Theorem update_blocks_json_lines (fs : files) (st : stats) :
  outcome (update_blocks_json set_order encodes fs) = inr st →
  length (List.filter is_updated_line (printed (update_blocks_json set_order encodes fs)))
  = updated st
  ∧ length (List.filter is_no_match_line (printed (update_blocks_json set_order encodes fs)))
    = still_missing st.
Proof.
  destruct (files_txt fs) as [lines|] eqn:Hl;
    [|by rewrite update_blocks_json_no_listing].
  destruct (blocks_json fs) as [[|data]|] eqn:Hb;
    [by rewrite (update_blocks_json_malformed _ _ _ lines)| |
     by rewrite (update_blocks_json_no_blocks _ _ _ lines)].
  destruct data as [| | |s|blocks|fields].
  1-4,6: unfold update_blocks_json, load_available_textures, load_blocks, py_len,
      process_data, save_blocks, outcome, printed; io_unfold;
      rewrite Hl, Hb; simpl; try done.
  - destruct s; [|done]. simpl. by intros [= <-].
  - destruct fields; [|done]. simpl. by intros [= <-].
  - rewrite (update_blocks_json_list _ _ _ lines blocks Hl Hb). simpl.
    destruct (process_blocks _ _ blocks fs) as [[fs1 out1] [e'|[st' blocks']]] eqn:Hp;
      [done|].
    unfold outcome, printed. simpl.
    destruct (forallb (encodable encodes) blocks'); simpl; [|done].
    intros [= ->].
    apply process_blocks_lines in Hp as [Hu Hs]. simpl in *. lia.
Qed.

(** X24: a success rate that [main] prints lies between 0 and 100. *)
Theorem success_rate_bounds (fs : files) (q : Q) :
  MsgSuccessRate q ∈ (main set_order encodes fs).2 → (0 <= q)%Q ∧ (q <= 100 # 1)%Q.
Proof.
  destruct (outcome (update_blocks_json set_order encodes fs)) as [e|st] eqn:Hrun.
  - rewrite (main_printed_inl _ _ _ e Hrun), !elem_of_app.
    pose proof (update_blocks_json_no_rate set_order encodes fs) as Hno.
    rewrite Forall_forall in Hno.
    intros [Hin|[Hin|Hin]].
    + unfold banner in Hin.
      repeat (apply elem_of_cons in Hin as [Hin|Hin]; [discriminate Hin|]).
      by apply elem_of_nil in Hin.
    + by apply Hno in Hin.
    + apply list_elem_of_singleton in Hin. by destruct e.
  - intros Hq. apply (rate_in_main set_order encodes fs st q Hrun) in Hq as [Hu ->].
    pose proof (update_blocks_json_counter_sum set_order encodes fs st Hrun) as Hsum.
    unfold success_rate.
    destruct (missing_found st) as [|m] eqn:Hm; [lia|].
    assert (updated st ≤ S m) as Hle by lia.
    unfold Qle, Qdiv, Qmult, Qinv. simpl. split; lia.
Qed.

(** X25: [main] prints the line of exactly one [except] clause when the
    update raises, and then not the completion line; when the update returns
    it prints the completion line and no error line. *)
Theorem main_error_lines (fs : files) :
  match outcome (update_blocks_json set_order encodes fs) with
  | inl e =>
      List.filter is_error_line (main set_order encodes fs).2 = [error_message e]
      ∧ MsgCompleted ∉ (main set_order encodes fs).2
  | inr st =>
      List.filter is_error_line (main set_order encodes fs).2 = []
      ∧ MsgCompleted ∈ (main set_order encodes fs).2
  end.
Proof.
  destruct (progress_no_error _ (update_blocks_json_progress fs)) as [Hf Hc].
  destruct (outcome (update_blocks_json set_order encodes fs)) as [e|st] eqn:Hrun.
  - rewrite (main_printed_inl _ _ _ e Hrun). split.
    + rewrite !List.filter_app, Hf. simpl. by destruct e.
    + rewrite !elem_of_app. intros [Hin|[Hin|Hin]]; [|done|].
      * unfold banner in Hin.
        repeat (apply elem_of_cons in Hin as [Hin|Hin]; [discriminate Hin|]).
        by apply elem_of_nil in Hin.
      * apply list_elem_of_singleton in Hin. by destruct e.
  - rewrite (main_printed_inr _ _ _ st Hrun). split.
    + rewrite !List.filter_app, Hf. unfold summary. simpl.
      by destruct (0 <? updated st).
    + rewrite !elem_of_app. right. right. unfold summary.
      apply elem_of_app. left. right. left.
Qed.

End Console.

Lemma update_blocks_json_lines_witness :
  length (List.filter is_updated_line
            (printed (update_blocks_json elements all_encode example_files)))
  = updated (Stats 3 2 1 1)
  ∧ length (List.filter is_no_match_line
              (printed (update_blocks_json elements all_encode example_files)))
    = still_missing (Stats 3 2 1 1).
Proof.
  apply (update_blocks_json_lines elements all_encode example_files (Stats 3 2 1 1)).
  vm_compute. reflexivity.
Defined.

Lemma success_rate_bounds_witness :
  (0 <= success_rate (Stats 3 2 1 1))%Q ∧ (success_rate (Stats 3 2 1 1) <= 100 # 1)%Q.
Proof.
  apply (success_rate_bounds elements all_encode example_files).
  vm_compute. do 14 right. left.
Defined.

(** ** Other shapes of [blocks.json] and the second run *)

Section Shapes.

Variable set_order : gset string → list string.
Variable encodes : ascii → bool.

(** X26: what [main] does when [blocks.json] holds something else than a
    non-empty list.  On [null], a boolean or a number the length cannot be
    taken: [TypeError] is reported after the first progress line.  On a
    non-empty object or string the first turn of the loop raises:
    [AttributeError] is reported.  On an empty list, object or string the
    counters are all zero and no success rate is printed.  In each of these
    cases both files are left as they were. *)
Theorem main_other_shapes (fs : files) (lines : list string) (data : json) :
  files_txt fs = Some lines →
  blocks_json fs = Some (Encodes data) →
  (∀ block blocks, data ≠ JArr (block :: blocks)) →
  match data with
  | JNull | JBool _ | JNum _ =>
      main set_order encodes fs
      = (fs, banner ++ [ MsgLoadedTextures (length (set_order (texture_set lines)));
                         MsgUnexpected TypeError ])
  | JStr (String c s) =>
      main set_order encodes fs
      = (fs, banner ++ [ MsgLoadedTextures (length (set_order (texture_set lines)));
                         MsgLoadedBlocks (S (String.length s));
                         MsgUnexpected AttributeError ])
  | JObj (field :: fields) =>
      main set_order encodes fs
      = (fs, banner ++ [ MsgLoadedTextures (length (set_order (texture_set lines)));
                         MsgLoadedBlocks (S (length fields));
                         MsgUnexpected AttributeError ])
  | JStr EmptyString | JObj [] | JArr [] =>
      main set_order encodes fs
      = (fs, banner ++ [ MsgLoadedTextures (length (set_order (texture_set lines)));
                         MsgLoadedBlocks 0 ]
                    ++ [ MsgRule; MsgCompleted; MsgTotal 0; MsgMissingFound 0;
                         MsgUpdatedCount 0; MsgStillMissing 0 ])
  | JArr (_ :: _) => False
  end.
Proof.
  intros Hl Hb Hshape. destruct fs as [ftxt fblocks]. simpl in Hl, Hb. subst ftxt fblocks.
  destruct data as [| | |[|c s]|[|block blocks]|[|field fields]]; try reflexivity.
  by apply (Hshape block blocks).
Qed.

End Shapes.

Lemma main_other_shapes_witness :
  main elements all_encode (Files (Some ["a.png"]) (Some (Encodes (JNum 7))))
  = (Files (Some ["a.png"]) (Some (Encodes (JNum 7))),
     banner ++ [ MsgLoadedTextures (length (elements (texture_set ["a.png"])));
                 MsgUnexpected TypeError ]).
Proof.
  apply (main_other_shapes elements all_encode (Files (Some ["a.png"]) (Some (Encodes (JNum 7))))
           ["a.png"] (JNum 7)).
  - reflexivity.
  - reflexivity.
  - intros block blocks. discriminate.
Defined.

(** X27: after a first run that returns, a second run returns too,
    provided it iterates the candidate set in the order of the first run or
    the two orders list the same candidates and none of them is named like
    the sentinel: it processes as many records, finds the records that the
    first run left unmatched, updates none of them and leaves them all
    unmatched. *)
Theorem second_run_counters
    (order1 order2 : gset string → list string) (encodes : ascii → bool)
    (fs : files) (st : stats) :
  (∀ lines, files_txt fs = Some lines →
     order1 (texture_set lines) = order2 (texture_set lines)
     ∨ (order1 (texture_set lines) ≡ₚ order2 (texture_set lines)
        ∧ "missing_texture.png" ∉ order1 (texture_set lines))) →
  outcome (update_blocks_json order1 encodes fs) = inr st →
  outcome (update_blocks_json order2 encodes
             (final_files (update_blocks_json order1 encodes fs)))
  = inr (Stats (total_processed st) (still_missing st) 0 (still_missing st)).
Proof. intros Hagree Hrun. by apply second_run_stats. Qed.

Lemma second_run_counters_witness :
  outcome (update_blocks_json (fun s => reverse (elements s)) all_encode
             (final_files (update_blocks_json elements all_encode example_files)))
  = inr (Stats 3 1 0 1).
Proof.
  apply (second_run_counters elements (fun s => reverse (elements s)) all_encode
           example_files (Stats 3 2 1 1)).
  - intros lines [= <-]. right. split.
    + symmetry. apply reverse_Permutation.
    + apply mem_false. vm_compute. reflexivity.
  - vm_compute. reflexivity.
Defined.

Lemma second_run_other_order_witness :
  (main (fun s => reverse (elements s)) all_encode (main elements all_encode example_files).1).1
  = (main elements all_encode example_files).1.
Proof.
  apply (second_run_other_order_changes_nothing elements
           (fun s => reverse (elements s)) all_encode).
  - intros s. symmetry. apply reverse_Permutation.
  - intros lines [= <-]. apply mem_false. vm_compute. reflexivity.
Defined.

Lemma main_writes_after_loop_witness :
  ∃ st lines data data',
    files_txt example_files = Some lines
    ∧ blocks_json example_files = Some (Encodes data)
    ∧ data_pass (elements (texture_set lines)) data st data'
    ∧ ((outcome (update_blocks_json elements rejects_z example_files) = inr st
        ∧ encodable rejects_z data' = true
        ∧ (main elements rejects_z example_files).1
          = Files (Some lines) (Some (Encodes data')))
       ∨ (outcome (update_blocks_json elements rejects_z example_files)
          = inl UnicodeEncodeError
          ∧ encodable rejects_z data' = false
          ∧ (main elements rejects_z example_files).1
            = Files (Some lines) (Some Malformed))).
Proof.
  apply (main_writes_after_loop elements rejects_z example_files).
  vm_compute. discriminate.
Defined.

(** When the dump raises, the catalog is lost: the file is left cut off, and
    the next run reports invalid JSON. *)
Example main_cut_off_example :
  main elements rejects_z example_files
  = (Files (Some example_listing) (Some Malformed),
     banner
     ++ [ MsgLoadedTextures 2; MsgLoadedBlocks 3;
          MsgUpdated "Oak_Log" "blocks/missing_texture.png" "blocks/oak_log.png";
          MsgNoMatch "zzz"; MsgUnexpected UnicodeEncodeError ])
  ∧ main elements rejects_z (main elements rejects_z example_files).1
    = (Files (Some example_listing) (Some Malformed),
       banner ++ [MsgLoadedTextures 2; MsgInvalidJSON]).
Proof. split; vm_compute; reflexivity. Qed.

(** ** A dump that raises *)


